(** * KubeDNS: record synthesis, reconciliation and lookup (pkg/dns/dns.go)

    A shallow embedding of the cluster DNS authority of pkg/dns: the
    reconciler callbacks that turn services and endpoints into cache
    mutations, and the resolver [Records].  State is passed explicitly: every
    method of [*KubeDNS] that mutates the receiver returns the new [KubeDNS].
    The reader-writer lock, the informers and glog calls have no effect on the
    values computed and are left out. *)

From Stdlib Require Import ZArith NArith Ascii String DecimalString.
From stdpp Require Import gmap strings list fin_maps.

#[local] Set Warnings "-register-all".
#[local] Open Scope string_scope.
#[local] Disable Notation "_ ++ _" : string_scope.
#[local] Open Scope N_scope.

(** ** Go library functions used by dns.go

    Go strings are byte sequences; [string] is the list of its bytes. *)

Definition byte_eqb (a b : ascii) : bool := (N_of_ascii a =? N_of_ascii b).

Definition string_empty (s : string) : bool :=
  match s with EmptyString => true | String _ _ => false end.

(** [strings.TrimRight(s, cutset)] for a cutset of one byte: the trailing run
    of [c] is removed. *)
Fixpoint TrimRight (s : string) (c : ascii) : string :=
  match s with
  | EmptyString => EmptyString
  | String a s' =>
      let t := TrimRight s' c in
      if string_empty t && byte_eqb a c then EmptyString else String a t
  end.

(** [strings.Split(s, sep)] for a separator of one byte.  The result is never
    empty: splitting the empty string gives one empty field. *)
Fixpoint Split (s : string) (sep : ascii) : list string :=
  match s with
  | EmptyString => [EmptyString]
  | String a s' =>
      if byte_eqb a sep then EmptyString :: Split s' sep
      else match Split s' sep with
           | f :: fs => String a f :: fs
           | [] => [String a EmptyString]
           end
  end.

(** [strings.Replace(s, old, new, -1)] where [old] and [new] are one byte. *)
Fixpoint Replace (s : string) (old new : ascii) : string :=
  match s with
  | EmptyString => EmptyString
  | String a s' => String (if byte_eqb a old then new else a) (Replace s' old new)
  end.

(** [strings.ToLower] on the ASCII range (the protocol names TCP and UDP);
    bytes outside A-Z are unchanged. *)
Definition lowerByte (a : ascii) : ascii :=
  let n := N_of_ascii a in
  if (65 <=? n) && (n <=? 90) then ascii_of_N (n + 32) else a.

Fixpoint ToLower (s : string) : string :=
  match s with
  | EmptyString => EmptyString
  | String a s' => String (lowerByte a) (ToLower s')
  end.

(** [strings.Join(elems, sep)]. *)
Fixpoint Join (elems : list string) (sep : string) : string :=
  match elems with
  | [] => EmptyString
  | [e] => e
  | e :: rest => e +:+ sep +:+ Join rest sep
  end.

(** The digit of [fmt]'s [%x]. *)
Definition hexDigit (n : N) : ascii :=
  if n <? 10 then ascii_of_N (48 + n) else ascii_of_N (87 + n).

(** [fmt.Sprintf("%x", v)] for an unsigned integer [v]: lower case, no leading
    zero, ["0"] for zero.  [digits] bounds the number of digits (8 for a
    uint32). *)
Fixpoint hexLoop (digits : nat) (n : N) (acc : string) : string :=
  match digits with
  | O => acc
  | S d =>
      let acc' := String (hexDigit (n mod 16)) acc in
      if n / 16 =? 0 then acc' else hexLoop d (n / 16) acc'
  end.

Definition Sprintf_x_uint32 (v : N) : string := hexLoop 8 v EmptyString.

(** [fmt.Sprintf("%x", s)] for a string [s]: two hex digits per byte. *)
Fixpoint Sprintf_x_string (s : string) : string :=
  match s with
  | EmptyString => EmptyString
  | String a s' =>
      let n := N_of_ascii a in
      String (hexDigit (n / 16)) (String (hexDigit (n mod 16)) (Sprintf_x_string s'))
  end.

(** [hash/fnv]: [fnv.New32a()], [Write] and [Sum32] (32-bit FNV-1a: xor the
    byte in, multiply by the prime, wrap at 2^32). *)
Definition offset32 : N := 2166136261.
Definition prime32 : N := 16777619.

Fixpoint fnv32aWrite (h : N) (data : string) : N :=
  match data with
  | EmptyString => h
  | String a rest => fnv32aWrite ((N.lxor h (N_of_ascii a) * prime32) mod 2 ^ 32) rest
  end.

Definition fnv32a (data : string) : N := fnv32aWrite offset32 data.

(** *** [net.ParseIP]

    Only whether the result is nil matters to dns.go, so the parsers return
    [true] where Go returns an address.  [dtoi] and [xtoi] return the number
    read and the rest of the input. *)
Definition big : N := 0xFFFFFF.

Definition isDecimal (a : ascii) : bool :=
  let n := N_of_ascii a in (48 <=? n) && (n <=? 57).

Fixpoint dtoiLoop (s : string) (n : N) (any : bool) : option (N * string) :=
  match s with
  | String a s' =>
      if isDecimal a then
        let n' := n * 10 + (N_of_ascii a - 48) in
        if big <=? n' then None else dtoiLoop s' n' true
      else if any then Some (n, s) else None
  | EmptyString => if any then Some (n, s) else None
  end.

Definition dtoi (s : string) : option (N * string) := dtoiLoop s 0 false.

Definition hexValue (a : ascii) : option N :=
  let n := N_of_ascii a in
  if (48 <=? n) && (n <=? 57) then Some (n - 48)
  else if (97 <=? n) && (n <=? 102) then Some (n - 97 + 10)
  else if (65 <=? n) && (n <=? 70) then Some (n - 65 + 10)
  else None.

Fixpoint xtoiLoop (s : string) (n : N) (any : bool) : option (N * string) :=
  match s with
  | String a s' =>
      match hexValue a with
      | Some d =>
          let n' := n * 16 + d in
          if big <=? n' then None else xtoiLoop s' n' true
      | None => if any then Some (n, s) else None
      end
  | EmptyString => if any then Some (n, s) else None
  end.

Definition xtoi (s : string) : option (N * string) := xtoiLoop s 0 false.

(** [parseIPv4]: [j] counts the octets still to read, [first] says that no
    octet was read yet (no dot is expected before the first). *)
Fixpoint parseIPv4Loop (j : nat) (first : bool) (s : string) : bool :=
  match j with
  | O => string_empty s
  | S j' =>
      match s with
      | EmptyString => false
      | String a s' =>
          let field :=
            if first then Some s
            else if byte_eqb a "." then Some s' else None in
          match field with
          | None => false
          | Some f =>
              match dtoi f with
              | Some (n, rest) => if 0xFF <? n then false else parseIPv4Loop j' false rest
              | None => false
              end
          end
      end
  end.

Definition parseIPv4 (s : string) : bool := parseIPv4Loop 4 true s.

(** [parseIPv6]'s loop.  [room] is the number of 16-bit groups that still fit
    (Go's [j] is [16 - 2 * room]); [ellipsis] says that a [::] was seen.  The
    result is the input left over, the room left and the ellipsis flag at
    the loop's exit, or [None] where Go returns nil from inside the loop. *)
Fixpoint parseIPv6Loop (room : nat) (s : string) (ellipsis : bool)
  : option (string * nat * bool) :=
  match room with
  | O => Some (s, O, ellipsis)
  | S room' =>
      match xtoi s with
      | None => None
      | Some (n, s1) =>
          if 0xFFFF <? n then None
          else match s1 with
               | EmptyString => Some (EmptyString, room', ellipsis)
               | String c s2 =>
                   if byte_eqb c "." then
                     (* trailing IPv4: the right place, and room for 4 bytes *)
                     match room' with
                     | O => None
                     | S room'' =>
                         if negb ellipsis && negb (Nat.eqb room 2) then None
                         else if parseIPv4 s then Some (EmptyString, room'', ellipsis)
                         else None
                     end
                   else if negb (byte_eqb c ":") || string_empty s2 then None
                   else match s2 with
                        | String c2 s3 =>
                            if byte_eqb c2 ":" then
                              if ellipsis then None
                              else if string_empty s3 then Some (EmptyString, room', true)
                              else parseIPv6Loop room' s3 true
                            else parseIPv6Loop room' s2 ellipsis
                        | EmptyString => None
                        end
               end
      end
  end.

Definition parseIPv6Tail (s : string) (ellipsis : bool) : bool :=
  match parseIPv6Loop 8 s ellipsis with
  | None => false
  | Some (rest, room, ellipsis') =>
      (* must have used the entire string; an ellipsis stands for at least
         one group, and only an ellipsis makes up for missing groups *)
      string_empty rest
      && match room with O => negb ellipsis' | S _ => ellipsis' end
  end.

Definition parseIPv6 (s : string) : bool :=
  match s with
  | String c1 (String c2 rest) =>
      if byte_eqb c1 ":" && byte_eqb c2 ":" then
        if string_empty rest then true else parseIPv6Tail rest true
      else parseIPv6Tail s false
  | _ => parseIPv6Tail s false
  end.

Fixpoint ParseIPScan (s whole : string) : bool :=
  match s with
  | EmptyString => false
  | String a s' =>
      if byte_eqb a "." then parseIPv4 whole
      else if byte_eqb a ":" then parseIPv6 whole
      else ParseIPScan s' whole
  end.

(** [net.ParseIP(s) != nil]. *)
Definition ParseIP (s : string) : bool := ParseIPScan s s.

(** ** Data model *)

(** [skymsg.Service], the record value handed to the DNS front end.  dns.go
    sets these five fields; the others of the struct keep their zero value. *)
Module skymsg.
Record Service : Type := mkService {
  Host : string;
  Port : Z;
  Priority : Z;
  Weight : Z;
  Ttl : Z;
}.
End skymsg.

(** The fields of the API objects that dns.go reads.  The name and the
    namespace of the [ObjectMeta] are [Name] and [Namespace] in a service,
    [EName] and [ENamespace] in an endpoints object; [PortName] and
    [PortNumber] are the [Name] and the [Port] of a port. *)
Module kapi.
Record ServicePort : Type := mkServicePort {
  PortName : string;
  PortNumber : Z;
  Protocol : string;
}.

Record Service : Type := mkService {
  Name : string;
  Namespace : string;
  ClusterIP : string;
  Ports : list ServicePort;
}.

Record EndpointAddress : Type := mkEndpointAddress {
  IP : string;
  Hostname : string;
}.

(** An [EndpointPort] has the fields of a [ServicePort] that matter here. *)
Record EndpointSubset : Type := mkEndpointSubset {
  Addresses : list EndpointAddress;
  SubsetPorts : list ServicePort;
}.

(** A nil [Annotations] map reads like an empty one. *)
Record Endpoints : Type := mkEndpoints {
  EName : string;
  ENamespace : string;
  Annotations : gmap string string;
  Subsets : list EndpointSubset;
}.
End kapi.

(** [endpoints.HostRecord]. *)
Record HostRecord : Type := mkHostRecord { HostName : string }.

(** An [interface{}] value as the informers and stores carry it. *)
Inductive Object : Type :=
  | ObjService (s : kapi.Service)
  | ObjEndpoints (e : kapi.Endpoints)
  | ObjOther.

(** The errors dns.go returns. *)
Inductive Error : Type :=
  | ErrKeyNotFound                 (* etcd.Error{Code: etcd.ErrorCodeKeyNotFound} *)
  | ErrInvalidIP (ip : string)     (* fmt.Errorf("Invalid IP Address %v", ip) *)
  | ErrUnmarshal                   (* the error of json.Unmarshal *)
  | ErrNotAService                 (* "got a non service object in services store" *)
  | PanicIndex.                    (* run-time panic: index out of range *)

(** What dns.go imports and the sources do not hold: the printed form of a
    record ([fmt.Sprintf("%v", msg)], which follows the declaration of the
    struct in the skydns library), the JSON decoder of the pod-hostnames
    annotation, the DNS label check of pkg/util/validation and the annotation
    key of pkg/api/endpoints.  The development is parametric in them.  The
    one fact used about the decoder: [json.Unmarshal] rejects the empty
    input ("unexpected end of JSON input"). *)
Class Imports : Type := {
  Sprintf_v : skymsg.Service → string;
  json_Unmarshal : string → option (gmap string HostRecord);
  json_Unmarshal_empty : json_Unmarshal EmptyString = None;
  IsDNS1123Label : string → bool;
  PodHostnamesAnnotation : string;
}.

(** Modelled from the spec: [kapi.IsServiceIPSet] of pkg/api, which is not in
    the sources ("cluster IP literal None is the canonical marker, but any
    unset IP also triggers this path"). *)
Definition IsServiceIPSet (service : kapi.Service) : bool :=
  negb (String.eqb (kapi.ClusterIP service) "None")
  && negb (string_empty (kapi.ClusterIP service)).

(** Modelled from the spec: [kcache.MetaNamespaceKeyFunc] of pkg/client/cache,
    which is not in the sources ("looks up the object by namespace/name"). *)
Definition MetaNamespaceKey (namespace name : string) : string :=
  if string_empty namespace then name else namespace +:+ "/" +:+ name.

(** ** TreeCache

    treecache.go is not among the sources; the type and its operations follow
    the specification (section 4.1). *)

(** Modelled from the spec: the TreeCache node of treecache.go ("a node has two
    maps: children: label → node and entries: label → record"). *)
Inductive TreeCache : Type := mkTreeCache {
  ChildNodes : gmap string TreeCache;
  Entries : gmap string skymsg.Service;
}.

(** Modelled from the spec: [NewTreeCache] of treecache.go, the root of the
    empty path with no child and no entry. *)
Definition NewTreeCache : TreeCache := mkTreeCache ∅ ∅.

(** Modelled from the spec: [setEntry] of treecache.go ("create intermediate
    child nodes as needed along path; store value in the terminal node's
    entries[key]"). *)
Fixpoint setEntry (key : string) (val : skymsg.Service) (path : list string)
    (cache : TreeCache) : TreeCache :=
  match path with
  | [] => mkTreeCache (ChildNodes cache) (<[key := val]> (Entries cache))
  | p :: rest =>
      let child := default NewTreeCache (ChildNodes cache !! p) in
      mkTreeCache (<[p := setEntry key val rest child]> (ChildNodes cache)) (Entries cache)
  end.

(** Modelled from the spec: [setSubCache] of treecache.go ("create
    intermediates along path; at the terminal node, set children[key] = sub,
    replacing any prior child wholesale"). *)
Fixpoint setSubCache (key : string) (sub : TreeCache) (path : list string)
    (cache : TreeCache) : TreeCache :=
  match path with
  | [] => mkTreeCache (<[key := sub]> (ChildNodes cache)) (Entries cache)
  | p :: rest =>
      let child := default NewTreeCache (ChildNodes cache !! p) in
      mkTreeCache (<[p := setSubCache key sub rest child]> (ChildNodes cache)) (Entries cache)
  end.

(** Modelled from the spec: the walk of treecache.go that the operations
    share ("walk path through children"); [None] when a label has no child. *)
Fixpoint getSubCache (path : list string) (cache : TreeCache) : option TreeCache :=
  match path with
  | [] => Some cache
  | p :: rest =>
      match ChildNodes cache !! p with
      | Some child => getSubCache rest child
      | None => None
      end
  end.

(** Modelled from the spec: [getEntry] of treecache.go ("walk path through
    children; return entries[key] if present, else miss"). *)
Definition getEntry (key : string) (path : list string) (cache : TreeCache)
  : option skymsg.Service :=
  match getSubCache path cache with
  | Some node => Entries node !! key
  | None => None
  end.

(** Modelled from the spec: [deletePath] of treecache.go ("walk path through
    children; remove the final child (both its subtree and any entry at the
    same key on the parent's entries map, if present); no-op if the path
    does not exist").  The result of the Go function is not used by dns.go. *)
Fixpoint deletePath (path : list string) (cache : TreeCache) : TreeCache :=
  match path with
  | [] => cache
  | [name] => mkTreeCache (delete name (ChildNodes cache)) (delete name (Entries cache))
  | p :: rest =>
      match ChildNodes cache !! p with
      | Some child =>
          mkTreeCache (<[p := deletePath rest child]> (ChildNodes cache)) (Entries cache)
      | None => cache
      end
  end.

Definition entriesOf (node : TreeCache) : list skymsg.Service :=
  (map_to_list (Entries node)).*2.

Definition childrenOf (node : TreeCache) : list TreeCache :=
  (map_to_list (ChildNodes node)).*2.

(** What the last label of a wildcard query selects in one node: a terminal
    entry, or else the entries of the exact child. *)
Definition selectLast (label : string) (node : TreeCache) : list skymsg.Service :=
  match Entries node !! label with
  | Some val => [val]
  | None =>
      match ChildNodes node !! label with
      | Some child => entriesOf child
      | None => []
      end
  end.

(** What a label that is not the last selects from a frontier: every child
    for [*], the exact child for a literal label. *)
Definition matchChildren (label : string) (nodes : list TreeCache) : list TreeCache :=
  if String.eqb label "*" then nodes ≫= childrenOf
  else omap (λ node, ChildNodes node !! label) nodes.

(** Modelled from the spec: the traversal of [getValuesForPathWithWildcards]
    in treecache.go, from a frontier of matched nodes.  "A label * in the
    query path matches any child at that level.  A literal label matches
    exactly."  The last label selects a terminal entry or an exact child;
    a last label [*] selects neither, and the nodes reached stay the
    frontier.  "Once the path is fully consumed, all entries of all [...]
    nodes reachable via the matched frontier are collected": the entries of
    the frontier's nodes themselves (the portal and headless scenarios of
    section 8 count the A records at the service's name and not the SRV
    records below it).  The order of the result is unspecified; here it is
    the order of the frontier. *)
Fixpoint walkWildcards (path : list string) (nodes : list TreeCache)
  : list skymsg.Service :=
  match path with
  | [] => nodes ≫= entriesOf
  | [label] =>
      if String.eqb label "*" then nodes ≫= entriesOf
      else nodes ≫= selectLast label
  | label :: rest => walkWildcards rest (matchChildren label nodes)
  end.

(** Modelled from the spec: [getValuesForPathWithWildcards] of treecache.go
    ("collect every record under the node(s) matched by path, honoring
    wildcard labels"). *)
Definition getValuesForPathWithWildcards (path : list string) (cache : TreeCache)
  : list skymsg.Service :=
  walkWildcards path [cache].

(** ** KubeDNS (dns.go) *)

Definition serviceSubdomain : string := "svc".
Definition podSubdomain : string := "pod".

(** The fields of [KubeDNS] that carry data: the stores are keyed by
    [MetaNamespaceKeyFunc] and filled by the informers. *)
Record KubeDNS : Type := mkKubeDNS {
  domain : string;
  endpointsStore : gmap string Object;
  servicesStore : gmap string Object;
  cache : TreeCache;
  domainPath : list string;
}.

Definition withCache (kd : KubeDNS) (c : TreeCache) : KubeDNS :=
  mkKubeDNS (domain kd) (endpointsStore kd) (servicesStore kd) c (domainPath kd).

(** [arr[i], arr[j] = arr[j], arr[i]]; both indices are in range in
    [reverseArray]. *)
Definition swap (arr : list string) (i j : nat) : list string :=
  match arr !! i, arr !! j with
  | Some x, Some y => <[j := x]> (<[i := y]> arr)
  | _, _ => arr
  end.

Definition reverseArray (arr : list string) : list string :=
  foldl (λ a i, swap a i (length arr - i - 1)) arr (seq 0 (length arr / 2)).

(** The reversed path of a name, as [NewKubeDNS] and [Records] compute it. *)
Definition pathOfName (name : string) : list string :=
  reverseArray (Split (TrimRight name ".") ".").

Definition NewKubeDNS (domain : string) : KubeDNS :=
  mkKubeDNS domain ∅ ∅ NewTreeCache (pathOfName domain).

Definition assertIsService (obj : Object) : option kapi.Service :=
  match obj with
  | ObjService service => Some service
  | _ => None
  end.

Definition isPodRecord (kd : KubeDNS) (path : list string) : bool :=
  if negb (Nat.eqb (length path) (length (domainPath kd) + 3)) then false
  else match path !! length (domainPath kd) with
       | Some segment =>
           if negb (String.eqb segment "pod") then false
           else forallb (λ segment, negb (String.eqb segment "*")) path
       | None => false
       end.

Definition getPodIP (path : list string) : string + Error :=
  match path !! (length path - 1)%nat with
  | Some ipStr =>
      let ip := Replace ipStr "-" "." in
      if ParseIP ip then inl ip else inr (ErrInvalidIP ip)
  | None => inr PanicIndex
  end.

Section Model.
Context {imp : Imports}.

(** The record and its label: the hex form of the string that holds the
    hex form of the record's FNV-1a hash. *)
Definition getSkyMsg (ip : string) (port : Z) : skymsg.Service * string :=
  let msg := skymsg.mkService ip port 10 10 30 in
  let s := Sprintf_v msg in
  let hash := Sprintf_x_uint32 (fnv32a s) in
  (msg, Sprintf_x_string hash).

Definition getHostname (address : kapi.EndpointAddress)
    (podHostnames : gmap string HostRecord) : option string :=
  if negb (string_empty (kapi.Hostname address)) then Some (kapi.Hostname address)
  else match podHostnames !! kapi.IP address with
       | Some hostRecord =>
           if IsDNS1123Label (HostName hostRecord) then Some (HostName hostRecord)
           else None
       | None => None
       end.

Definition getPodHostnamesFromAnnotation (annotations : gmap string string)
  : gmap string HostRecord + Error :=
  match annotations !! PodHostnamesAnnotation with
  | Some serializedHostnames =>
      if negb (string_empty serializedHostnames) then
        match json_Unmarshal serializedHostnames with
        | Some hostnames => inl hostnames
        | None => inr ErrUnmarshal
        end
      else inl ∅
  | None => inl ∅
  end.

Definition generateSRVRecordValue (kd : KubeDNS) (svc : kapi.Service)
    (portNumber : Z) (labels : list string) : skymsg.Service :=
  let host :=
    Join [kapi.Name svc; kapi.Namespace svc; serviceSubdomain; domain kd] "." in
  let host := foldl (λ host cNameLabel, cNameLabel +:+ "." +:+ host) host labels in
  (getSkyMsg host portNumber).1.

(** The body of the loops over the ports: [newPortalService] stores the
    SRV record of a named port under the label of the A record and gives
    [generateSRVRecordValue] no label; [generateRecordsForHeadlessService]
    stores it under the endpoint's name and passes that name as label. *)
Definition addSRVRecord (kd : KubeDNS) (svc : kapi.Service) (recordLabel : string)
    (labels : list string) (subCache : TreeCache) (port : kapi.ServicePort) : TreeCache :=
  if negb (string_empty (kapi.PortName port))
     && negb (string_empty (kapi.Protocol port)) then
    let srvValue := generateSRVRecordValue kd svc (kapi.PortNumber port) labels in
    setEntry recordLabel srvValue
      ["_" +:+ ToLower (kapi.Protocol port); "_" +:+ kapi.PortName port] subCache
  else subCache.

(** The subcache that [newPortalService] builds before it takes the lock. *)
Definition portalSubCache (kd : KubeDNS) (service : kapi.Service) : TreeCache :=
  let '(recordValue, recordLabel) := getSkyMsg (kapi.ClusterIP service) 0 in
  let subCache := setEntry recordLabel recordValue [] NewTreeCache in
  foldl (addSRVRecord kd service recordLabel []) subCache (kapi.Ports service).

Definition newPortalService (kd : KubeDNS) (service : kapi.Service) : KubeDNS :=
  let subCache := portalSubCache kd service in
  let subCachePath := domainPath kd ++ [serviceSubdomain; kapi.Namespace service] in
  withCache kd (setSubCache (kapi.Name service) subCache subCachePath (cache kd)).

(** The name under which an address is stored. *)
Definition endpointNameOf (podHostnames : gmap string HostRecord)
    (address : kapi.EndpointAddress) : string :=
  let '(_, endpointName) := getSkyMsg (kapi.IP address) 0 in
  match getHostname address podHostnames with
  | Some hostLabel => hostLabel
  | None => endpointName
  end.

(** The body of the loop over the addresses of one subset. *)
Definition addAddress (kd : KubeDNS) (svc : kapi.Service)
    (podHostnames : gmap string HostRecord) (ports : list kapi.ServicePort)
    (subCache : TreeCache) (address : kapi.EndpointAddress) : TreeCache :=
  let endpointIP := kapi.IP address in
  let recordValue := (getSkyMsg endpointIP 0).1 in
  let endpointName := endpointNameOf podHostnames address in
  let subCache := setEntry endpointName recordValue [] subCache in
  foldl (addSRVRecord kd svc endpointName [endpointName]) subCache ports.

(** The subcache that [generateRecordsForHeadlessService] builds. *)
Definition headlessSubCache (kd : KubeDNS) (e : kapi.Endpoints) (svc : kapi.Service)
    (podHostnames : gmap string HostRecord) : TreeCache :=
  foldl (λ subCache subset,
           foldl (addAddress kd svc podHostnames (kapi.SubsetPorts subset))
                 subCache (kapi.Addresses subset))
        NewTreeCache (kapi.Subsets e).

Definition generateRecordsForHeadlessService (kd : KubeDNS) (e : kapi.Endpoints)
    (svc : kapi.Service) : KubeDNS * option Error :=
  match getPodHostnamesFromAnnotation (kapi.Annotations e) with
  | inr err => (kd, Some err)
  | inl podHostnames =>
      let subCache := headlessSubCache kd e svc podHostnames in
      let subCachePath := domainPath kd ++ [serviceSubdomain; kapi.Namespace svc] in
      (withCache kd (setSubCache (kapi.Name svc) subCache subCachePath (cache kd)), None)
  end.

(** The in-memory stores never fail in [GetByKey]; a missing key is
    [exists = false]. *)
Definition newHeadlessService (kd : KubeDNS) (service : kapi.Service)
  : KubeDNS * option Error :=
  let key := MetaNamespaceKey (kapi.Namespace service) (kapi.Name service) in
  match endpointsStore kd !! key with
  | None => (kd, None)
  | Some (ObjEndpoints e) => generateRecordsForHeadlessService kd e service
  | Some _ => (kd, None)
  end.

Definition newService (kd : KubeDNS) (obj : Object) : KubeDNS :=
  match assertIsService obj with
  | Some service =>
      if negb (IsServiceIPSet service) then (newHeadlessService kd service).1
      else newPortalService kd service
  | None => kd
  end.

Definition removeService (kd : KubeDNS) (obj : Object) : KubeDNS :=
  match assertIsService obj with
  | Some s =>
      let subCachePath :=
        domainPath kd ++ [serviceSubdomain; kapi.Namespace s; kapi.Name s] in
      withCache kd (deletePath subCachePath (cache kd))
  | None => kd
  end.

Definition updateService (kd : KubeDNS) (oldObj newObj : Object) : KubeDNS :=
  newService kd newObj.

Definition getServiceFromEndpoints (kd : KubeDNS) (e : kapi.Endpoints)
  : option kapi.Service + Error :=
  let key := MetaNamespaceKey (kapi.ENamespace e) (kapi.EName e) in
  match servicesStore kd !! key with
  | None => inl None
  | Some obj =>
      match assertIsService obj with
      | Some svc => inl (Some svc)
      | None => inr ErrNotAService
      end
  end.

Definition addDNSUsingEndpoints (kd : KubeDNS) (e : kapi.Endpoints)
  : KubeDNS * option Error :=
  match getServiceFromEndpoints kd e with
  | inr err => (kd, Some err)
  | inl None => (kd, None)
  | inl (Some svc) =>
      if IsServiceIPSet svc then (kd, None)
      else generateRecordsForHeadlessService kd e svc
  end.

Definition handleEndpointAdd (kd : KubeDNS) (obj : Object) : KubeDNS :=
  match obj with
  | ObjEndpoints e => (addDNSUsingEndpoints kd e).1
  | _ => kd
  end.

Definition Records (kd : KubeDNS) (name : string) (exact : bool)
  : list skymsg.Service + Error :=
  let trimmed := TrimRight name "." in
  let segments := Split trimmed "." in
  let path := reverseArray segments in
  if isPodRecord kd path then
    match getPodIP path with
    | inl ip => inl [(getSkyMsg ip 0).1]
    | inr err => inr err
    end
  else if exact then
    match path !! (length path - 1)%nat with
    | None => inr PanicIndex
    | Some key =>
        if string_empty key then inl []
        else match getEntry key (take (length path - 1) path) (cache kd) with
             | Some record => inl [record]
             | None => inr ErrKeyNotFound
             end
    end
  else
    let records := getValuesForPathWithWildcards path (cache kd) in
    let retval := records in
    if Nat.eqb (length retval) 0 then inr ErrKeyNotFound else inl retval.
End Model.

(** ** Names and notions used in the statements *)

Fixpoint hasByte (c : ascii) (s : string) : bool :=
  match s with
  | EmptyString => false
  | String a s' => byte_eqb a c || hasByte c s'
  end.

(** The addresses of all subsets, in the order of the loops. *)
Definition allAddresses (e : kapi.Endpoints) : list kapi.EndpointAddress :=
  kapi.Subsets e ≫= kapi.Addresses.

(** A port with a name and a protocol gets an SRV record, at this path of
    the service's subcache. *)
Definition isNamed (port : kapi.ServicePort) : bool :=
  negb (string_empty (kapi.PortName port)) && negb (string_empty (kapi.Protocol port)).

Definition srvPath (port : kapi.ServicePort) : list string :=
  ["_" +:+ ToLower (kapi.Protocol port); "_" +:+ kapi.PortName port].

(** The name of a service as dns_test.go builds it ([getServiceFQDN]), and
    the five equivalent queries of the specification. *)
Definition serviceFQDN (kd : KubeDNS) (ns n : string) : string :=
  n +:+ "." +:+ ns +:+ ".svc." +:+ domain kd.

Definition equivalentQueries (kd : KubeDNS) (ns n : string) : list string :=
  [ n +:+ "." +:+ ns +:+ ".svc." +:+ domain kd;
    n +:+ ".*.svc." +:+ domain kd;
    n +:+ "." +:+ ns +:+ ".*." +:+ domain kd;
    n +:+ ".*.*." +:+ domain kd;
    "*." +:+ n +:+ "." +:+ ns +:+ ".svc." +:+ domain kd ].

(** The path of a service's subtree. *)
Definition servicePath (kd : KubeDNS) (ns n : string) : list string :=
  domainPath kd ++ [serviceSubdomain; ns; n].

(** A [KubeDNS] built as [NewKubeDNS] and the tests build it. *)
Definition wellFormed (kd : KubeDNS) : Prop :=
  domainPath kd = pathOfName (domain kd).

Section Events.
Context {imp : Imports}.


(** The states of a run: a fresh [KubeDNS], the informers' updates of the
    stores, and the callbacks. *)
Inductive reachable : KubeDNS → Prop :=
  | reachable_new dom : reachable (NewKubeDNS dom)
  | reachable_stores kd endpoints services :
      reachable kd →
      reachable (mkKubeDNS (domain kd) endpoints services (cache kd) (domainPath kd))
  | reachable_newService kd obj : reachable kd → reachable (newService kd obj)
  | reachable_updateService kd oldObj newObj :
      reachable kd → reachable (updateService kd oldObj newObj)
  | reachable_removeService kd obj : reachable kd → reachable (removeService kd obj)
  | reachable_handleEndpointAdd kd obj : reachable kd → reachable (handleEndpointAdd kd obj).
End Events.

(** Every entry lies inside the subtree of some service. *)
Definition entriesBelowServices (kd : KubeDNS) : Prop :=
  ∀ key path, is_Some (getEntry key path (cache kd)) →
              (length (domainPath kd) + 3 ≤ length path)%nat.

(** ** An instance of the imports, to run the model

    The printed form is Go's [%v] of a pointer to the skydns struct (fields
    Host, Port, Priority, Weight, Text, Mail, Ttl, TargetStrip, Group, Key);
    the label check is the DNS-1123 label rule; the decoder accepts the empty
    object only, which is all the examples below need. *)
Definition decimal (z : Z) : string := NilZero.string_of_int (Z.to_int z).

Definition refSprintf_v (msg : skymsg.Service) : string :=
  "&{" +:+ skymsg.Host msg +:+ " " +:+ decimal (skymsg.Port msg) +:+ " "
  +:+ decimal (skymsg.Priority msg) +:+ " " +:+ decimal (skymsg.Weight msg)
  +:+ "  false " +:+ decimal (skymsg.Ttl msg) +:+ " 0  }".

Definition isLowerAlnum (a : ascii) : bool :=
  let n := N_of_ascii a in
  ((48 <=? n) && (n <=? 57)) || ((97 <=? n) && (n <=? 122)).

Fixpoint labelTail (s : string) : bool :=
  match s with
  | EmptyString => true
  | String a EmptyString => isLowerAlnum a
  | String a s' => (isLowerAlnum a || byte_eqb a "-") && labelTail s'
  end.

Definition refIsDNS1123Label (s : string) : bool :=
  match s with
  | EmptyString => false
  | String a _ => isLowerAlnum a && labelTail s && (String.length s <=? 63)%nat
  end.

Definition refUnmarshal (s : string) : option (gmap string HostRecord) :=
  if String.eqb s "{}" then Some ∅ else None.

Definition refImports : Imports :=
  {| Sprintf_v := refSprintf_v;
     json_Unmarshal := refUnmarshal;
     json_Unmarshal_empty := eq_refl;
     IsDNS1123Label := refIsDNS1123Label;
     PodHostnamesAnnotation := "endpoints.beta.kubernetes.io/hostnames-map" |}.

Definition isHexCode (c : ascii) : Prop :=
  (48 ≤ N_of_ascii c ≤ 57)%N ∨ (97 ≤ N_of_ascii c ≤ 102)%N.

(** ** The objects of dns_test.go, and a few more

    [testKubeDNS] is [newKubeDNS()] with its empty stores. *)
Definition testDomain : string := "cluster.local.".
Definition testKubeDNS : KubeDNS := NewKubeDNS testDomain.

(** The A record of an address, as [getSkyMsg(ip, 0)] builds it. *)
Definition ARecord (ip : string) : skymsg.Service := skymsg.mkService ip 0 10 10 30.

Definition testService : kapi.Service :=
  kapi.mkService "testservice" "default" "1.2.3.4" [kapi.mkServicePort "" 80 "TCP"].
Definition namedService : kapi.Service :=
  kapi.mkService "testservice" "default" "1.2.3.4" [kapi.mkServicePort "http1" 80 "TCP"].
Definition twoPortsService : kapi.Service :=
  kapi.mkService "testservice" "default" "1.2.3.4"
    [kapi.mkServicePort "http" 80 "TCP"; kapi.mkServicePort "http" 81 "tcp"].
Definition otherService : kapi.Service :=
  kapi.mkService "testservice" "other" "5.6.7.8" [kapi.mkServicePort "" 80 "TCP"].
Definition headlessService : kapi.Service :=
  kapi.mkService "testservice" "default" "None" [kapi.mkServicePort "" 0 ""].

Definition address (ip : string) : kapi.EndpointAddress := kapi.mkEndpointAddress ip "".

Definition testEndpoints : kapi.Endpoints :=
  kapi.mkEndpoints "testservice" "default" ∅
    [kapi.mkEndpointSubset [address "10.0.0.1"; address "10.0.0.2"]
                           [kapi.mkServicePort "" 80 "TCP"];
     kapi.mkEndpointSubset [address "10.0.0.3"; address "10.0.0.4"]
                           [kapi.mkServicePort "" 8080 "TCP"]].
Definition noEndpoints : kapi.Endpoints :=
  kapi.mkEndpoints "testservice" "default" ∅ [].
Definition emptyAnnotationEndpoints : kapi.Endpoints :=
  kapi.mkEndpoints "testservice" "default"
    {[ PodHostnamesAnnotation (Imports := refImports) := "" ]}
    [kapi.mkEndpointSubset [address "10.0.0.1"] [kapi.mkServicePort "" 80 "TCP"]].
Definition brokenAnnotationEndpoints : kapi.Endpoints :=
  kapi.mkEndpoints "testservice" "default"
    {[ PodHostnamesAnnotation (Imports := refImports) := "{" ]}
    [kapi.mkEndpointSubset [address "10.0.0.1"] [kapi.mkServicePort "" 80 "TCP"]].

Definition namedPortsEndpoints : kapi.Endpoints :=
  kapi.mkEndpoints "testservice" "default" ∅
    [kapi.mkEndpointSubset [address "10.0.0.1"; address "10.0.0.2"]
       [kapi.mkServicePort "http1" 80 "TCP"; kapi.mkServicePort "http2" 81 "TCP"];
     kapi.mkEndpointSubset [address "10.0.0.3"; address "10.0.0.4"]
       [kapi.mkServicePort "https" 443 "TCP"]].

(** [servicesStore.Add(service)] and, with [Some e], [endpointsStore.Add(e)]
    for the headless service of the tests. *)
Definition withStores (kd : KubeDNS) (e : option kapi.Endpoints) : KubeDNS :=
  mkKubeDNS (domain kd)
    (match e with Some e => {[ "default/testservice" := ObjEndpoints e ]} | None => ∅ end)
    {[ "default/testservice" := ObjService headlessService ]}
    (cache kd) (domainPath kd).

(** What the assertions of the tests read off a result. *)
Definition ports (result : list skymsg.Service + Error) : list Z :=
  match result with inl records => skymsg.Port <$> records | inr _ => [] end.
Definition count (result : list skymsg.Service + Error) : nat :=
  match result with inl records => length records | inr _ => 0%nat end.

(** A cache that stores a record at the very path of a pod name. *)
Definition storedAtPodName : KubeDNS :=
  withCache testKubeDNS
    (setEntry "x" (ARecord "9.9.9.9") ["local"; "cluster"; "pod"; "default"] NewTreeCache).

(** The cache after the service of another namespace was added. *)
Definition withOtherService : KubeDNS :=
  newService (imp := refImports) testKubeDNS (ObjService otherService).

(** ** The rest of dns.go *)

(** [ReverseRecord]: the record is always nil; the result is the message of
    the error. *)
Definition ReverseRecord (name : string) : option skymsg.Service * string :=
  let segments := Split (TrimRight name ".") "." in
  if existsb (λ k, String.eqb k "*") segments
  then (None, "reverse can not contain wildcards")
  else (None, "must be exactly one service record").

(** The names of dns_test.go ([getSRVFQDN], with the protocol of the port
    for [_tcp]) and of the pod records. *)
Definition srvFQDN (kd : KubeDNS) (ns n : string) (port : kapi.ServicePort) : string :=
  "_" +:+ kapi.PortName port +:+ "." +:+ "_" +:+ ToLower (kapi.Protocol port)
  +:+ "." +:+ serviceFQDN kd ns n.

Definition podFQDN (kd : KubeDNS) (ns ip : string) : string :=
  Replace ip "." "-" +:+ "." +:+ ns +:+ ".pod." +:+ domain kd.

Definition endpointFQDN (kd : KubeDNS) (ns n endpointName : string) : string :=
  endpointName +:+ "." +:+ serviceFQDN kd ns n.

(** An endpoints object whose address carries a hostname, with a named
    port. *)
Definition hostnameEndpoints : kapi.Endpoints :=
  kapi.mkEndpoints "testservice" "default" ∅
    [kapi.mkEndpointSubset [kapi.mkEndpointAddress "10.0.0.1" "web-0"]
       [kapi.mkServicePort "http" 80 "TCP"]].

(** One call of [setEntry]: the key, the path and the value. *)
Definition EntryWrite : Type := string * list string * skymsg.Service.

Definition applyWrite (subCache : TreeCache) (w : EntryWrite) : TreeCache :=
  setEntry w.1.1 w.2 w.1.2 subCache.

Section Writes.
Context {imp : Imports}.

(** The calls of [setEntry] that [generateRecordsForHeadlessService] makes
    for one address, in order: the A record, then the SRV record of each
    named port of the subset. *)
Definition addressWrites (kd : KubeDNS) (svc : kapi.Service)
    (podHostnames : gmap string HostRecord) (ports : list kapi.ServicePort)
    (address : kapi.EndpointAddress) : list EntryWrite :=
  let endpointName := endpointNameOf podHostnames address in
  (endpointName, [], (getSkyMsg (kapi.IP address) 0).1)
  :: ((λ port, (endpointName, srvPath port,
                generateSRVRecordValue kd svc (kapi.PortNumber port) [endpointName]))
        <$> filter (λ port, isNamed port = true) ports).

Definition headlessWrites (kd : KubeDNS) (e : kapi.Endpoints) (svc : kapi.Service)
    (podHostnames : gmap string HostRecord) : list EntryWrite :=
  kapi.Subsets e ≫= (λ subset,
    kapi.Addresses subset ≫= addressWrites kd svc podHostnames (kapi.SubsetPorts subset)).
End Writes.

(** * Proofs *)

(** ** Slices and names *)

Lemma swap_length arr i j : length (swap arr i j) = length arr.
Proof.
  unfold swap. destruct (arr !! i), (arr !! j); rewrite ?length_insert; done.
Qed.

Lemma swap_lookup arr i j k :
  (i < length arr)%nat → (j < length arr)%nat →
  swap arr i j !! k =
    if decide (k = j) then arr !! i else if decide (k = i) then arr !! j else arr !! k.
Proof.
  intros Hi Hj. unfold swap.
  destruct (lookup_lt_is_Some_2 arr i Hi) as [x Hx].
  destruct (lookup_lt_is_Some_2 arr j Hj) as [y Hy].
  rewrite Hx, Hy.
  destruct (decide (k = j)) as [->|Hkj].
  - rewrite list_lookup_insert_eq; [done|by rewrite length_insert].
  - rewrite list_lookup_insert_ne by done.
    destruct (decide (k = i)) as [->|Hki].
    + by rewrite list_lookup_insert_eq.
    + by rewrite list_lookup_insert_ne.
Qed.

(** After [k] rounds of the loop the outer [k] elements on either side are
    exchanged and the middle is as it was. *)
Lemma reverse_rounds (arr : list string) (k : nat) :
  (2 * k ≤ length arr)%nat →
  length (foldl (λ a i, swap a i (length arr - i - 1)) arr (seq 0 k)) = length arr ∧
  ∀ i, (i < length arr)%nat →
    foldl (λ a i, swap a i (length arr - i - 1)) arr (seq 0 k) !! i =
      if decide (i < k ∨ length arr - k ≤ i)%nat
      then arr !! (length arr - i - 1)%nat else arr !! i.
Proof.
  induction k as [|k IH]; intros Hk.
  - split; [done|]. intros i Hi. case_decide; [lia|done].
  - rewrite seq_S, foldl_app. cbn [foldl Nat.add].
    destruct IH as [Hlen Hlook]; [lia|].
    split; [by rewrite swap_length|].
    intros i Hi.
    rewrite swap_lookup by lia.
    repeat case_decide; subst; rewrite ?Hlook by lia;
      repeat case_decide; try lia; try done.
    f_equal. lia.
Qed.

Lemma reverseArray_reverse (arr : list string) : reverseArray arr = reverse arr.
Proof.
  unfold reverseArray.
  assert (2 * (length arr / 2) ≤ length arr)%nat as Hk.
  { pose proof (Nat.div_mod_eq (length arr) 2). lia. }
  destruct (reverse_rounds arr _ Hk) as [Hlen Hlook].
  apply list_eq_same_length with (length arr); [by rewrite length_reverse|done|].
  intros i x y Hi Hx Hy.
  rewrite Hlook in Hx by done.
  rewrite reverse_lookup in Hy by done.
  pose proof (Nat.div_mod_eq (length arr) 2) as Hd.
  pose proof (Nat.mod_upper_bound (length arr) 2).
  case_decide as Hc.
  - replace (length arr - S i)%nat with (length arr - i - 1)%nat in Hy by lia. congruence.
  - assert (i = length arr - S i)%nat as Heq by lia. rewrite <- Heq in Hy. congruence.
Qed.

(** ** TreeCache *)

Lemma getEntry_nil key cache : getEntry key [] cache = Entries cache !! key.
Proof. done. Qed.

Lemma getEntry_cons key p rest cache :
  getEntry key (p :: rest) cache =
    match ChildNodes cache !! p with
    | Some child => getEntry key rest child
    | None => None
    end.
Proof. unfold getEntry. simpl. by destruct (ChildNodes cache !! p). Qed.

Lemma getEntry_NewTreeCache key path : getEntry key path NewTreeCache = None.
Proof. destruct path; [done|]. by rewrite getEntry_cons. Qed.

Lemma getEntry_default key rest (o : option TreeCache) :
  getEntry key rest (default NewTreeCache o) =
    match o with Some child => getEntry key rest child | None => None end.
Proof. destruct o; [done|]. apply getEntry_NewTreeCache. Qed.

(** setSubCache changes nothing outside the subtree it installs. *)
Lemma getEntry_setSubCache_frame key sub path cache k q :
  ¬ (path ++ [key]) `prefix_of` q →
  getEntry k q (setSubCache key sub path cache) = getEntry k q cache.
Proof.
  revert cache q. induction path as [|p rest IH]; intros cache q Hq.
  - destruct q as [|a q]; [done|]. simpl. rewrite !getEntry_cons. simpl.
    destruct (decide (a = key)) as [->|Hne].
    + destruct Hq. apply prefix_cons, prefix_nil.
    + by rewrite lookup_insert_ne.
  - destruct q as [|a q]; [done|]. simpl. rewrite !getEntry_cons. simpl.
    destruct (decide (a = p)) as [->|Hne].
    + rewrite lookup_insert_eq. rewrite IH.
      * apply getEntry_default.
      * intros Hp. apply Hq. by apply prefix_cons.
    + by rewrite lookup_insert_ne.
Qed.

Lemma getSubCache_setSubCache key sub path cache :
  getSubCache (path ++ [key]) (setSubCache key sub path cache) = Some sub.
Proof.
  revert cache. induction path as [|p rest IH]; intros cache; simpl.
  - by rewrite lookup_insert_eq.
  - by rewrite lookup_insert_eq.
Qed.

Lemma setSubCache_idemp key sub path cache :
  setSubCache key sub path (setSubCache key sub path cache) = setSubCache key sub path cache.
Proof.
  revert cache. induction path as [|p rest IH]; intros cache; simpl.
  - by rewrite insert_insert_eq.
  - rewrite lookup_insert_eq. simpl. by rewrite IH, insert_insert_eq.
Qed.


Lemma getEntry_setEntry_eq key val path cache :
  getEntry key path (setEntry key val path cache) = Some val.
Proof.
  revert cache. induction path as [|p rest IH]; intros cache.
  - rewrite getEntry_nil. simpl. by rewrite lookup_insert_eq.
  - rewrite getEntry_cons. simpl. by rewrite lookup_insert_eq.
Qed.

Lemma getEntry_setEntry_ne key val path cache k q :
  (path, key) ≠ (q, k) →
  getEntry k q (setEntry key val path cache) = getEntry k q cache.
Proof.
  revert cache q. induction path as [|p rest IH]; intros cache q Hne.
  - destruct q as [|a q].
    + rewrite !getEntry_nil. simpl. rewrite lookup_insert_ne; [done|congruence].
    + by rewrite !getEntry_cons.
  - destruct q as [|a q]; [done|].
    rewrite !getEntry_cons. simpl.
    destruct (decide (a = p)) as [->|Hap].
    + rewrite lookup_insert_eq, IH by congruence. apply getEntry_default.
    + by rewrite lookup_insert_ne.
Qed.

(** ** The label of a record *)

Lemma hexDigit_code n :
  (n < 16)%N →
  N_of_ascii (hexDigit n) = if (n <? 10)%N then (48 + n)%N else (87 + n)%N.
Proof.
  intros Hn. unfold hexDigit.
  destruct (n <? 10)%N; apply N_ascii_embedding; lia.
Qed.

Lemma hexLoop_bytes digits n acc c :
  (∀ b, hasByte b acc = true → isHexCode b) →
  hasByte c (hexLoop digits n acc) = true → isHexCode c.
Proof.
  revert n acc. induction digits as [|d IH]; intros n acc Hacc; simpl; [by apply Hacc|].
  assert (∀ b, hasByte b (String (hexDigit (n mod 16)) acc) = true → isHexCode b) as Hacc'.
  { intros b. simpl. intros [Hb|Hb]%orb_true_iff; [|by apply Hacc].
    unfold byte_eqb in Hb. apply N.eqb_eq in Hb. unfold isHexCode. rewrite <- Hb.
    pose proof (N.mod_upper_bound n 16 ltac:(done)) as Hm.
    rewrite hexDigit_code by done.
    clear Hb. generalize dependent (n mod 16)%N. intros m Hm.
    destruct (N.ltb_spec m 10); lia. }
  destruct (n / 16 =? 0)%N; [apply Hacc'|by apply IH].
Qed.

(** A label holds decimal digits only: each byte of the hash string is a
    hex digit, 0x30-0x39 or 0x61-0x66, and is printed as two digits. *)
Lemma Sprintf_x_string_decimal s c :
  (∀ b, hasByte b s = true → isHexCode b) →
  hasByte c (Sprintf_x_string s) = true → isDecimal c = true.
Proof.
  induction s as [|a s IH]; intros Hs; simpl; [done|].
  assert (isHexCode a) as Ha.
  { apply Hs. simpl. unfold byte_eqb. by rewrite N.eqb_refl. }
  assert (∀ d, (d < 10)%N → byte_eqb (hexDigit d) c = true → isDecimal c = true) as Hdigit.
  { intros d Hd Hc. unfold byte_eqb in Hc. apply N.eqb_eq in Hc.
    unfold isDecimal. rewrite <- Hc, hexDigit_code by lia.
    destruct (N.ltb_spec d 10); [|lia].
    apply andb_true_iff. split; apply N.leb_le; lia. }
  intros [Hc|[Hc|Hc]%orb_true_iff]%orb_true_iff.
  - apply (Hdigit (N_of_ascii a / 16)%N); [|done].
    destruct Ha as [Ha|Ha].
    + assert (N_of_ascii a / 16 = 3)%N as ->; [|lia].
      symmetry. apply (N.div_unique _ 16 3 (N_of_ascii a - 48)); lia.
    + assert (N_of_ascii a / 16 = 6)%N as ->; [|lia].
      symmetry. apply (N.div_unique _ 16 6 (N_of_ascii a - 96)); lia.
  - apply (Hdigit (N_of_ascii a mod 16)%N); [|done].
    destruct Ha as [Ha|Ha].
    + assert (N_of_ascii a mod 16 = N_of_ascii a - 48)%N as ->; [|lia].
      symmetry. apply (N.mod_unique _ 16 3); lia.
    + assert (N_of_ascii a mod 16 = N_of_ascii a - 96)%N as ->; [|lia].
      symmetry. apply (N.mod_unique _ 16 6); lia.
  - apply IH; [|done]. intros b Hb. apply Hs. simpl. by rewrite Hb, orb_true_r.
Qed.

Lemma label_decimal {imp : Imports} ip port c :
  hasByte c (getSkyMsg ip port).2 = true → isDecimal c = true.
Proof.
  simpl. apply Sprintf_x_string_decimal.
  intros b. unfold Sprintf_x_uint32. by apply hexLoop_bytes.
Qed.

Lemma Replace_hasByte s old new :
  hasByte old s = true → hasByte new (Replace s old new) = true.
Proof.
  induction s as [|a s IH]; [done|]. simpl.
  destruct (byte_eqb a old) eqn:Ha; simpl.
  - intros _. unfold byte_eqb. by rewrite N.eqb_refl.
  - intros Hs. by rewrite IH, orb_true_r.
Qed.

(** Whatever the printed form of a record is, the label of a dotted address
    is not the address with dashes for dots. *)
Lemma label_not_dashed {imp : Imports} ip port :
  hasByte "." ip = true → (getSkyMsg ip port).2 ≠ Replace ip "." "-".
Proof.
  intros Hdot Heq.
  pose proof (Replace_hasByte ip "." "-" Hdot) as Hdash.
  rewrite <- Heq in Hdash. by apply label_decimal in Hdash.
Qed.

(** ** The resolver *)

Lemma Split_nonempty s sep : Split s sep ≠ [].
Proof.
  destruct s as [|a s]; [done|]. simpl.
  destruct (byte_eqb a sep); [done|]. by destruct (Split s sep).
Qed.

Lemma pathOfName_reverse name :
  pathOfName name = reverse (Split (TrimRight name ".") ".").
Proof. apply reverseArray_reverse. Qed.

Lemma pathOfName_nonempty name : pathOfName name ≠ [].
Proof.
  rewrite pathOfName_reverse. intros Hnil.
  apply (f_equal reverse) in Hnil. rewrite reverse_involutive in Hnil.
  by apply Split_nonempty in Hnil.
Qed.

Lemma last_label (path : list string) :
  path ≠ [] → ∃ key, path !! (length path - 1)%nat = Some key.
Proof.
  intros Hne. apply lookup_lt_is_Some_2.
  destruct path; [done|]. simpl. lia.
Qed.

Section Resolver.
Context {imp : Imports}.

Lemma Records_unfold kd name exact :
  Records kd name exact =
    let path := pathOfName name in
    if isPodRecord kd path then
      match getPodIP path with
      | inl ip => inl [(getSkyMsg ip 0).1]
      | inr err => inr err
      end
    else if exact then
      match path !! (length path - 1)%nat with
      | None => inr PanicIndex
      | Some key =>
          if string_empty key then inl []
          else match getEntry key (take (length path - 1) path) (cache kd) with
               | Some record => inl [record]
               | None => inr ErrKeyNotFound
               end
      end
    else
      let records := getValuesForPathWithWildcards path (cache kd) in
      if Nat.eqb (length records) 0 then inr ErrKeyNotFound else inl records.
Proof. reflexivity. Qed.

Lemma Records_pod kd name exact label :
  isPodRecord kd (pathOfName name) = true →
  pathOfName name !! (length (pathOfName name) - 1)%nat = Some label →
  Records kd name exact =
    if ParseIP (Replace label "-" ".")
    then inl [skymsg.mkService (Replace label "-" ".") 0 10 10 30]
    else inr (ErrInvalidIP (Replace label "-" ".")).
Proof.
  intros Hpod Hlast. rewrite Records_unfold. cbv zeta. rewrite Hpod.
  unfold getPodIP. rewrite Hlast.
  by destruct (ParseIP (Replace label "-" ".")).
Qed.
End Resolver.

(** A dotted quad is an address for [ParseIP]: the scan meets its first dot
    before any colon. *)
Lemma dtoiLoop_scan f n any m rest whole :
  dtoiLoop f n any = Some (m, rest) →
  ParseIPScan f whole = ParseIPScan rest whole.
Proof.
  revert n any. induction f as [|a f IH]; intros n any Hd; simpl in Hd.
  - destruct any; naive_solver.
  - destruct (isDecimal a) eqn:Ha.
    + destruct (big <=? n * 10 + (N_of_ascii a - 48))%N; [done|].
      simpl. unfold isDecimal in Ha. unfold byte_eqb.
      change (N_of_ascii ".") with 46%N. change (N_of_ascii ":") with 58%N.
      apply andb_true_iff in Ha as [H1 H2].
      apply N.leb_le in H1, H2.
      destruct (N.eqb_spec (N_of_ascii a) 46); [lia|].
      destruct (N.eqb_spec (N_of_ascii a) 58); [lia|].
      by eapply IH.
    + destruct any; naive_solver.
Qed.

Lemma parseIPv4_ParseIP s : parseIPv4 s = true → ParseIP s = true.
Proof.
  unfold parseIPv4, ParseIP. intros Hp.
  assert (∀ whole, ParseIPScan s whole = parseIPv4 whole) as Hscan.
  { intros whole. simpl in Hp. destruct s as [|a s]; [done|].
    destruct (dtoi (String a s)) as [[n rest]|] eqn:Hd; [|done].
    unfold dtoi in Hd. rewrite (dtoiLoop_scan _ _ _ _ _ whole Hd).
    destruct (0xFF <? n)%N; [done|].
    destruct rest as [|b rest]; [done|].
    destruct (byte_eqb b ".") eqn:Hb; [|done].
    simpl. by rewrite Hb. }
  by rewrite Hscan.
Qed.

Section ResolverClaims.
Context {imp : Imports}.

(** C5 (amended).  For a query whose reversed path has [len(D) + 3] labels,
    [pod] at position [len(D)] and no label [*], and for either value of
    [exact]: with [ip] the last label with dashes replaced by dots, [Records]
    returns exactly one record with host [ip] and port 0 when [net.ParseIP]
    accepts [ip], which it does for every dotted quad and also for IPv6
    literals, and fails with the invalid-IP error when [net.ParseIP]
    rejects [ip]. *)
Theorem pod_record_lookup kd name exact :
  isPodRecord kd (pathOfName name) = true →
  ∃ label,
    pathOfName name !! (length (pathOfName name) - 1)%nat = Some label ∧
    let ip := Replace label "-" "." in
    (parseIPv4 ip = true → ParseIP ip = true) ∧
    (ParseIP ip = true →
       Records kd name exact = inl [skymsg.mkService ip 0 10 10 30]) ∧
    (ParseIP ip = false → Records kd name exact = inr (ErrInvalidIP ip)).
Proof.
  intros Hpod.
  destruct (last_label _ (pathOfName_nonempty name)) as [label Hlast].
  exists label. split; [done|]. cbv zeta.
  split; [apply parseIPv4_ParseIP|].
  split; intros Hip; rewrite (Records_pod _ _ _ _ Hpod Hlast), Hip; done.
Qed.

(** C6.  For a query that is not pod-shaped.  In exact mode: an empty last
    label gives the empty list and no error; an entry that [getEntry] finds
    for the last label under the remaining prefix is returned as a
    one-element list; otherwise the result is the not-found error.  In
    wildcard mode: the result is the not-found error exactly when the
    traversal collects no record, and otherwise all the records it
    collects. *)
Theorem records_not_pod kd name exact :
  isPodRecord kd (pathOfName name) = false →
  ∃ key,
    pathOfName name !! (length (pathOfName name) - 1)%nat = Some key ∧
    let path := pathOfName name in
    let prefix := take (length path - 1) path in
    (exact = true →
       (key = "" → Records kd name exact = inl []) ∧
       (∀ record, key ≠ "" → getEntry key prefix (cache kd) = Some record →
                  Records kd name exact = inl [record]) ∧
       (key ≠ "" → getEntry key prefix (cache kd) = None →
        Records kd name exact = inr ErrKeyNotFound)) ∧
    (exact = false →
       (Records kd name exact = inr ErrKeyNotFound ↔
        getValuesForPathWithWildcards path (cache kd) = []) ∧
       (getValuesForPathWithWildcards path (cache kd) ≠ [] →
        Records kd name exact = inl (getValuesForPathWithWildcards path (cache kd)))).
Proof.
  intros Hpod.
  destruct (last_label _ (pathOfName_nonempty name)) as [key Hlast].
  exists key. split; [done|]. cbv zeta.
  rewrite Records_unfold. cbv zeta. rewrite Hpod, Hlast.
  split; intros ->.
  - split; [by intros ->|]. split.
    + intros record Hkey Hget. destruct key; [done|]. simpl. by rewrite Hget.
    + intros Hkey Hget. destruct key; [done|]. simpl. by rewrite Hget.
  - destruct (getValuesForPathWithWildcards _ _) as [|r rs]; simpl.
    + by split.
    + by split.
Qed.

(** C9.  The result of a pod-shaped query is the same for any two states of
    the resolver over the same domain path, whatever their caches hold: the
    TreeCache is not consulted.  A last label that does not parse as an IP
    gives the invalid-IP error in every one of them. *)
Theorem pod_query_ignores_cache kd1 kd2 name exact :
  domainPath kd1 = domainPath kd2 →
  isPodRecord kd1 (pathOfName name) = true →
  Records kd1 name exact = Records kd2 name exact ∧
  ∀ label,
    pathOfName name !! (length (pathOfName name) - 1)%nat = Some label →
    ParseIP (Replace label "-" ".") = false →
    Records kd2 name exact = inr (ErrInvalidIP (Replace label "-" ".")).
Proof.
  intros HD Hpod1.
  assert (isPodRecord kd2 (pathOfName name) = true) as Hpod2.
  { unfold isPodRecord in *. by rewrite <- HD. }
  destruct (last_label _ (pathOfName_nonempty name)) as [label Hlast].
  split.
  - by rewrite (Records_pod kd1 _ _ _ Hpod1 Hlast), (Records_pod kd2 _ _ _ Hpod2 Hlast).
  - intros label' Hlast' Hip. rewrite (Records_pod kd2 _ _ _ Hpod2 Hlast'), Hip. done.
Qed.
End ResolverClaims.

(** Witness of C5: the pod name of dns_test.go. *)
Lemma pod_record_lookup_witness :
  Records (imp := refImports) testKubeDNS "1-2-3-4.default.pod.cluster.local." false
  = inl [ARecord "1.2.3.4"].
Proof.
  destruct (pod_record_lookup (imp := refImports) testKubeDNS
              "1-2-3-4.default.pod.cluster.local." false) as (label & Hlast & _ & Hok & _).
  - vm_compute. reflexivity.
  - vm_compute in Hlast. injection Hlast as <-. apply Hok. vm_compute. reflexivity.
Defined.

(** Counterexample to C5 as stated: the last label [fe80::1] is not a valid
    IPv4 address, and the pod-shaped query returns a record for it instead
    of the invalid-IP error. *)
Lemma pod_record_ipv6_counterexample :
  isPodRecord testKubeDNS (pathOfName "fe80::1.default.pod.cluster.local.") = true ∧
  parseIPv4 (Replace "fe80::1" "-" ".") = false ∧
  Records (imp := refImports) testKubeDNS "fe80::1.default.pod.cluster.local." false
    = inl [ARecord "fe80::1"].
Proof. vm_compute. done. Qed.

(** Witness of C6: the exact query for the A record of a portal service,
    and the wildcard query for a name that is not there. *)
Lemma records_not_pod_witness :
  Records (imp := refImports)
    (newService (imp := refImports) testKubeDNS (ObjService testService))
    "6263626163303737.testservice.default.svc.cluster.local." true
  = inl [ARecord "1.2.3.4"] ∧
  Records (imp := refImports) testKubeDNS "testservice.default.svc.cluster.local." false
  = inr ErrKeyNotFound.
Proof.
  split.
  - destruct (records_not_pod (imp := refImports)
                (newService (imp := refImports) testKubeDNS (ObjService testService))
                "6263626163303737.testservice.default.svc.cluster.local." true)
      as (key & Hkey & Hexact & _).
    + vm_compute. reflexivity.
    + vm_compute in Hkey. injection Hkey as <-.
      apply (Hexact eq_refl); [discriminate|vm_compute; reflexivity].
  - destruct (records_not_pod (imp := refImports) testKubeDNS
                "testservice.default.svc.cluster.local." false)
      as (key & _ & _ & Hwild).
    + vm_compute. reflexivity.
    + apply (Hwild eq_refl). vm_compute. reflexivity.
Defined.

(** Witness of C9: a record stored at the very path of the pod name [x]
    does not keep the query from failing. *)
Lemma pod_query_ignores_cache_witness :
  getEntry "x" ["local"; "cluster"; "pod"; "default"] (cache storedAtPodName)
    = Some (ARecord "9.9.9.9") ∧
  Records (imp := refImports) testKubeDNS "x.default.pod.cluster.local." true
    = Records (imp := refImports) storedAtPodName "x.default.pod.cluster.local." true ∧
  Records (imp := refImports) storedAtPodName "x.default.pod.cluster.local." true
    = inr (ErrInvalidIP "x").
Proof.
  split; [reflexivity|].
  destruct (pod_query_ignores_cache (imp := refImports) testKubeDNS storedAtPodName
              "x.default.pod.cluster.local." true) as [Hsame Hinvalid].
  - reflexivity.
  - reflexivity.
  - split; [exact Hsame|]. apply (Hinvalid "x"); reflexivity.
Defined.


(** ** Names of services as paths *)

Lemma string_empty_app x y :
  string_empty (x +:+ y) = string_empty x && string_empty y.
Proof. by destruct x. Qed.

Lemma string_empty_false s : s ≠ "" → string_empty s = false.
Proof. by destruct s. Qed.

Lemma TrimRight_app x d c :
  TrimRight d c ≠ "" → TrimRight (x +:+ d) c = x +:+ TrimRight d c.
Proof.
  intros Hd. induction x as [|a x IH]; [done|].
  simpl. rewrite IH, string_empty_app, (string_empty_false _ Hd).
  by rewrite andb_false_r.
Qed.

Lemma TrimRight_app_nonempty x d c : TrimRight d c ≠ "" → TrimRight (x +:+ d) c ≠ "".
Proof.
  intros Hd. rewrite TrimRight_app by done.
  destruct x; [done|]. done.
Qed.

Lemma Split_app x y sep :
  hasByte sep x = false → Split (x +:+ String sep y) sep = x :: Split y sep.
Proof.
  induction x as [|a x IH]; simpl; intros Hx.
  - unfold byte_eqb. by rewrite N.eqb_refl.
  - apply orb_false_iff in Hx as [Ha Hx]. rewrite Ha, IH by done. done.
Qed.

Ltac trim_name Hd :=
  repeat first
    [ rewrite (TrimRight_app _ _ _ Hd)
    | match goal with
      | |- context [TrimRight (?x +:+ ?y) ?c] =>
          rewrite (TrimRight_app x y c) by (repeat apply TrimRight_app_nonempty; exact Hd)
      end ].

(** The paths of the five equivalent queries. *)
Lemma equivalentQueries_paths kd ns n :
  wellFormed kd →
  TrimRight (domain kd) "." ≠ "" →
  hasByte "." n = false → hasByte "." ns = false →
  pathOfName <$> equivalentQueries kd ns n =
    [ domainPath kd ++ ["svc"; ns; n];
      domainPath kd ++ ["svc"; "*"; n];
      domainPath kd ++ ["*"; ns; n];
      domainPath kd ++ ["*"; "*"; n];
      domainPath kd ++ ["svc"; ns; n; "*"] ].
Proof.
  intros Hwf Hd Hn Hns. unfold equivalentQueries. rewrite Hwf.
  cbn [fmap list_fmap]. rewrite !pathOfName_reverse.
  trim_name Hd.
  assert (∀ x y, x +:+ "." +:+ y = x +:+ String "." y) as Hdot by done.
  change (".*.svc." +:+ TrimRight (domain kd) ".")
    with ("." +:+ "*" +:+ "." +:+ "svc" +:+ "." +:+ TrimRight (domain kd) ".").
  change (".*.*." +:+ TrimRight (domain kd) ".")
    with ("." +:+ "*" +:+ "." +:+ "*" +:+ "." +:+ TrimRight (domain kd) ".").
  change (".*." +:+ TrimRight (domain kd) ".")
    with ("." +:+ "*" +:+ "." +:+ TrimRight (domain kd) ".").
  change (".svc." +:+ TrimRight (domain kd) ".")
    with ("." +:+ "svc" +:+ "." +:+ TrimRight (domain kd) ".").
  change ("*." +:+ n +:+ "." +:+ ns +:+ "." +:+ "svc" +:+ "." +:+ TrimRight (domain kd) ".")
    with ("*" +:+ "." +:+ n +:+ "." +:+ ns +:+ "." +:+ "svc" +:+ "." +:+ TrimRight (domain kd) ".").
  rewrite !Hdot.
  rewrite !Split_app by done.
  rewrite !reverse_cons, <- !app_assoc. done.
Qed.

Lemma serviceFQDN_path kd ns n :
  wellFormed kd →
  TrimRight (domain kd) "." ≠ "" →
  hasByte "." n = false → hasByte "." ns = false →
  pathOfName (serviceFQDN kd ns n) = servicePath kd ns n.
Proof.
  intros Hwf Hd Hn Hns.
  pose proof (equivalentQueries_paths kd ns n Hwf Hd Hn Hns) as Hq.
  by injection Hq.
Qed.

(** ** The wildcard traversal *)

Lemma walk_cons label rest nodes :
  rest ≠ [] →
  walkWildcards (label :: rest) nodes = walkWildcards rest (matchChildren label nodes).
Proof. by destruct rest. Qed.

Lemma matchChildren_nil label : matchChildren label [] = [].
Proof. unfold matchChildren. by destruct (String.eqb label "*"). Qed.

Lemma matchChildren_app label a b :
  matchChildren label (a ++ b) = matchChildren label a ++ matchChildren label b.
Proof.
  unfold matchChildren. destruct (String.eqb label "*").
  - apply bind_app.
  - apply omap_app.
Qed.

Lemma walk_app path a b :
  walkWildcards path (a ++ b) = walkWildcards path a ++ walkWildcards path b.
Proof.
  revert a b. induction path as [|label rest IH]; intros a b.
  - apply bind_app.
  - destruct rest as [|label' rest].
    + simpl. destruct (String.eqb label "*"); apply bind_app.
    + rewrite !(walk_cons label) by done. by rewrite matchChildren_app, IH.
Qed.

Lemma walk_nil path : walkWildcards path [] = [].
Proof.
  induction path as [|label rest IH]; [done|].
  destruct rest as [|label' rest].
  - simpl. by destruct (String.eqb label "*").
  - rewrite walk_cons by done. by rewrite matchChildren_nil.
Qed.

Lemma walk_cons_node path node nodes :
  walkWildcards path (node :: nodes) = walkWildcards path [node] ++ walkWildcards path nodes.
Proof. apply (walk_app path [node] nodes). Qed.

(** Nothing is found from a frontier iff nothing is found from any of its
    nodes. *)
Lemma walk_empty path nodes :
  walkWildcards path nodes = [] ↔ ∀ node, node ∈ nodes → walkWildcards path [node] = [].
Proof.
  induction nodes as [|node nodes IH].
  - split; [by intros _ node ?%elem_of_nil|]. intros _. apply walk_nil.
  - rewrite walk_cons_node. split.
    + intros [H1 H2]%app_eq_nil node' [->|Hin]%elem_of_cons; [done|].
      by apply IH.
    + intros Hall. rewrite (Hall node) by left. simpl.
      apply IH. intros node' Hin. apply Hall. by right.
Qed.

Lemma walk_Permutation path nodes nodes' :
  nodes ≡ₚ nodes' → walkWildcards path nodes ≡ₚ walkWildcards path nodes'.
Proof.
  induction 1 as [|x l l' _ IH|x y l|l l' l'' _ IH1 _ IH2].
  - done.
  - rewrite (walk_cons_node _ x l), (walk_cons_node _ x l'). by f_equiv.
  - rewrite (walk_cons_node _ y), (walk_cons_node _ x), (walk_cons_node _ x (y :: l)),
      (walk_cons_node _ y l).
    rewrite !app_assoc. f_equiv. apply Permutation_app_comm.
  - by etrans.
Qed.

Lemma matchChildren_literal label node :
  label ≠ "*" →
  matchChildren label [node] = option_list (ChildNodes node !! label).
Proof.
  intros Hl. unfold matchChildren.
  destruct (String.eqb_spec label "*"); [done|]. simpl.
  by destruct (ChildNodes node !! label).
Qed.

Lemma matchChildren_star node : matchChildren "*" [node] = childrenOf node.
Proof. unfold matchChildren. simpl. apply app_nil_r. Qed.

(** A literal label selects among what [*] selects. *)
Lemma matchChildren_subset label node child :
  child ∈ matchChildren label [node] → child ∈ childrenOf node.
Proof.
  unfold matchChildren. destruct (String.eqb label "*").
  - simpl. by rewrite app_nil_r.
  - simpl. destruct (ChildNodes node !! label) as [c|] eqn:Hc; simpl.
    + intros ->%list_elem_of_singleton. unfold childrenOf.
      apply list_elem_of_fmap. exists (label, c). split; [done|].
      by apply elem_of_map_to_list.
    + by intros ?%elem_of_nil.
Qed.

Lemma walk_star_empty label rest node :
  rest ≠ [] →
  walkWildcards ("*" :: rest) [node] = [] →
  walkWildcards (label :: rest) [node] = [].
Proof.
  intros Hrest. rewrite !walk_cons by done. rewrite matchChildren_star.
  rewrite !walk_empty. intros Hall child Hin.
  by apply Hall, (matchChildren_subset label).
Qed.

(** Walking literal labels is the walk through the children. *)
Lemma walk_literal path rest cache :
  "*" ∉ path → rest ≠ [] →
  walkWildcards (path ++ rest) [cache] =
    match getSubCache path cache with
    | Some node => walkWildcards rest [node]
    | None => []
    end.
Proof.
  revert cache. induction path as [|p path IH]; intros cache Hstar Hrest; [done|].
  apply not_elem_of_cons in Hstar as [Hp Hstar].
  simpl app. rewrite walk_cons by (by destruct path, rest).
  rewrite matchChildren_literal by done. simpl.
  destruct (ChildNodes cache !! p) as [child|]; simpl.
  - by apply IH.
  - apply walk_nil.
Qed.

Lemma walk_last label node :
  label ≠ "*" → walkWildcards [label] [node] = selectLast label node.
Proof.
  intros Hl. simpl. destruct (String.eqb_spec label "*"); [done|].
  simpl. apply app_nil_r.
Qed.

Lemma walk_last_star node : walkWildcards ["*"] [node] = entriesOf node.
Proof. simpl. apply app_nil_r. Qed.

(** The node with the child [label] replaced. *)
Lemma childrenOf_insert label child node :
  childrenOf (mkTreeCache (<[label := child]> (ChildNodes node)) (Entries node))
  ≡ₚ child :: childrenOf (mkTreeCache (delete label (ChildNodes node)) (Entries node)).
Proof.
  unfold childrenOf. simpl.
  rewrite <- insert_delete_eq.
  rewrite map_to_list_insert by apply lookup_delete_eq. done.
Qed.

(** One level of the traversal above an installed subtree: when the other
    children lead to nothing, the literal label and [*] find the same. *)
Lemma walk_level label key child node rest :
  key ≠ "*" → rest ≠ [] → label = key ∨ label = "*" →
  (∀ other, other ∈ childrenOf (mkTreeCache (delete key (ChildNodes node)) (Entries node)) →
            walkWildcards rest [other] = []) →
  walkWildcards (label :: rest)
    [mkTreeCache (<[key := child]> (ChildNodes node)) (Entries node)]
  ≡ₚ walkWildcards rest [child].
Proof.
  intros Hkey Hrest Hlabel Hothers. rewrite walk_cons by done.
  destruct Hlabel as [->| ->].
  - rewrite matchChildren_literal by done. simpl. by rewrite lookup_insert_eq.
  - rewrite matchChildren_star.
    rewrite (walk_Permutation _ _ _ (childrenOf_insert key child node)).
    rewrite walk_cons_node.
    by rewrite (proj2 (walk_empty rest _) Hothers), app_nil_r.
Qed.

Lemma walk_level_empty key child node rest :
  rest ≠ [] →
  walkWildcards ("*" :: rest)
    [mkTreeCache (<[key := child]> (ChildNodes node)) (Entries node)] = [] →
  walkWildcards rest [child] = [] ∧
  ∀ other, other ∈ childrenOf (mkTreeCache (delete key (ChildNodes node)) (Entries node)) →
           walkWildcards rest [other] = [].
Proof.
  intros Hrest. rewrite walk_cons by done. rewrite matchChildren_star.
  intros Hnil.
  pose proof (walk_Permutation rest _ _ (childrenOf_insert key child node)) as Hperm.
  rewrite Hnil, walk_cons_node in Hperm.
  apply Permutation_nil_l in Hperm. symmetry in Hperm.
  apply app_eq_nil in Hperm as [H1 H2].
  split; [done|]. by apply walk_empty.
Qed.

Lemma getSubCache_NewTreeCache path :
  default NewTreeCache (getSubCache path NewTreeCache) = NewTreeCache.
Proof. by destruct path. Qed.

Lemma getSubCache_setSubCache_app key sub p1 p2 cache :
  getSubCache p1 (setSubCache key sub (p1 ++ p2) cache) =
    Some (setSubCache key sub p2 (default NewTreeCache (getSubCache p1 cache))).
Proof.
  revert cache. induction p1 as [|p p1 IH]; intros cache; [done|].
  simpl. rewrite lookup_insert_eq, IH.
  destruct (ChildNodes cache !! p); [done|].
  simpl. by rewrite getSubCache_NewTreeCache.
Qed.

(** ** The reconciler *)

Lemma servicePath_app kd ns n :
  servicePath kd ns n = (domainPath kd ++ [serviceSubdomain; ns]) ++ [n].
Proof. unfold servicePath. by rewrite <- app_assoc. Qed.


Section Reconciler.
Context {imp : Imports}.

Lemma generate_malformed kd e svc payload :
  kapi.Annotations e !! PodHostnamesAnnotation = Some payload →
  payload ≠ "" →
  json_Unmarshal payload = None →
  generateRecordsForHeadlessService kd e svc = (kd, Some ErrUnmarshal).
Proof.
  intros Hann Hne Hbad. unfold generateRecordsForHeadlessService,
    getPodHostnamesFromAnnotation.
  rewrite Hann. destruct payload; [done|]. simpl. by rewrite Hbad.
Qed.

(** Whatever the decoder is, the empty annotation is not valid JSON for it
    and it is not decoded: synthesis goes on and installs the subtree. *)
Lemma generate_empty_annotation kd e svc :
  kapi.Annotations e !! PodHostnamesAnnotation = Some "" →
  json_Unmarshal "" = None ∧
  generateRecordsForHeadlessService kd e svc =
    (withCache kd (setSubCache (kapi.Name svc) (headlessSubCache kd e svc ∅)
                     (domainPath kd ++ [serviceSubdomain; kapi.Namespace svc]) (cache kd)),
     None).
Proof.
  intros Hann. split; [apply json_Unmarshal_empty|].
  unfold generateRecordsForHeadlessService, getPodHostnamesFromAnnotation.
  by rewrite Hann.
Qed.

(** C7 (amended).  When the endpoints object of a headless service carries
    a pod-hostnames annotation that is not empty and that [json.Unmarshal]
    rejects, synthesis returns the decoder's error and the [KubeDNS], its
    cache included, is left as it was; the same holds for the callbacks
    that reach synthesis, [handleEndpointAdd] and [newService]. *)
Theorem malformed_annotation_no_mutation kd e svc payload :
  kapi.Annotations e !! PodHostnamesAnnotation = Some payload →
  payload ≠ "" →
  json_Unmarshal payload = None →
  generateRecordsForHeadlessService kd e svc = (kd, Some ErrUnmarshal) ∧
  handleEndpointAdd kd (ObjEndpoints e) = kd ∧
  (IsServiceIPSet svc = false →
   endpointsStore kd !! MetaNamespaceKey (kapi.Namespace svc) (kapi.Name svc)
     = Some (ObjEndpoints e) →
   newService kd (ObjService svc) = kd).
Proof.
  intros Hann Hne Hbad. split; [by eapply generate_malformed|]. split.
  - unfold handleEndpointAdd, addDNSUsingEndpoints.
    destruct (getServiceFromEndpoints kd e) as [[s|]|]; [|done..].
    destruct (IsServiceIPSet s); [done|].
    by erewrite generate_malformed.
  - intros Hheadless Hstore. unfold newService. simpl. rewrite Hheadless. simpl.
    unfold newHeadlessService. rewrite Hstore.
    by erewrite generate_malformed.
Qed.



Lemma withCache_withCache kd c1 c2 : withCache (withCache kd c1) c2 = withCache kd c2.
Proof. done. Qed.

(** C8.  Adding a service twice, portal or headless, from any state gives
    the state that adding it once gives. *)
Theorem add_idempotent kd obj :
  newService (newService kd obj) obj = newService kd obj.
Proof.
  destruct obj as [s| |]; [|done..].
  unfold newService. simpl. destruct (IsServiceIPSet s); simpl.
  - unfold newPortalService. rewrite withCache_withCache. simpl.
    change (portalSubCache (withCache kd _) s) with (portalSubCache kd s).
    by rewrite setSubCache_idemp.
  - unfold newHeadlessService.
    destruct (endpointsStore kd !! _) as [[s0 | e | ]|] eqn:Hstore;
      try (by simpl; rewrite Hstore).
    unfold generateRecordsForHeadlessService.
    destruct (getPodHostnamesFromAnnotation _) as [hostnames|] eqn:Hh; simpl.
    + rewrite Hstore, Hh. simpl.
      change (headlessSubCache (withCache kd _) e s hostnames)
        with (headlessSubCache kd e s hostnames).
      by rewrite setSubCache_idemp.
    + by rewrite Hstore, Hh.
Qed.
End Reconciler.

(** Witness of C7: the annotation [{] is rejected. *)
Lemma malformed_annotation_witness :
  generateRecordsForHeadlessService (imp := refImports)
    testKubeDNS brokenAnnotationEndpoints headlessService
  = (testKubeDNS, Some ErrUnmarshal).
Proof.
  apply (malformed_annotation_no_mutation (imp := refImports)
           testKubeDNS brokenAnnotationEndpoints headlessService "{").
  - reflexivity.
  - discriminate.
  - reflexivity.
Defined.

(** Counterexample to C7 as stated: the empty annotation is not valid JSON,
    yet it is not decoded; synthesis returns no error and installs the
    subtree. *)
Lemma empty_annotation_counterexample :
  kapi.Annotations emptyAnnotationEndpoints !! PodHostnamesAnnotation (Imports := refImports)
    = Some "" ∧
  json_Unmarshal (Imports := refImports) "" = None ∧
  (generateRecordsForHeadlessService (imp := refImports)
     testKubeDNS emptyAnnotationEndpoints headlessService).2 = None ∧
  getEntry "3234633364383235" (servicePath testKubeDNS "default" "testservice")
    (cache testKubeDNS) = None ∧
  getEntry "3234633364383235" (servicePath testKubeDNS "default" "testservice")
    (cache (generateRecordsForHeadlessService (imp := refImports)
              testKubeDNS emptyAnnotationEndpoints headlessService).1)
    = Some (ARecord "10.0.0.1").
Proof. vm_compute. done. Qed.



(** ** The states of a run *)

(** deletePath removes entries and adds none. *)
Lemma getEntry_deletePath_Some root cache k q record :
  getEntry k q (deletePath root cache) = Some record → getEntry k q cache = Some record.
Proof.
  revert cache q. induction root as [|p rest IH]; intros cache q; [done|].
  destruct rest as [|p' rest].
  - simpl. destruct q as [|a q].
    + rewrite !getEntry_nil. simpl. by intros [_ ?]%lookup_delete_Some.
    + rewrite !getEntry_cons. simpl.
      destruct (delete p (ChildNodes cache) !! a) as [child|] eqn:Hc; [|done].
      apply lookup_delete_Some in Hc as [_ ->]. done.
  - change (deletePath (p :: p' :: rest) cache) with
      (match ChildNodes cache !! p with
       | Some child => mkTreeCache (<[p := deletePath (p' :: rest) child]> (ChildNodes cache)) (Entries cache)
       | None => cache end).
    destruct (ChildNodes cache !! p) as [child|] eqn:Hc; [|done].
    destruct q as [|a q]; [done|].
    rewrite !getEntry_cons. simpl.
    destruct (decide (a = p)) as [->|Hne].
    + rewrite lookup_insert_eq, Hc. apply IH.
    + by rewrite lookup_insert_ne.
Qed.

Section Invariant.
Context {imp : Imports}.

Lemma install_entriesBelowServices kd ns n sub :
  entriesBelowServices kd →
  entriesBelowServices
    (withCache kd (setSubCache n sub (domainPath kd ++ [serviceSubdomain; ns]) (cache kd))).
Proof.
  intros Hinv key path. simpl.
  destruct (decide (((domainPath kd ++ [serviceSubdomain; ns]) ++ [n]) `prefix_of` path))
    as [Hin|Hout].
  - intros _. apply prefix_length in Hin. rewrite !length_app in Hin. simpl in Hin. lia.
  - rewrite getEntry_setSubCache_frame by done. apply Hinv.
Qed.

Lemma generate_entriesBelowServices kd e svc :
  entriesBelowServices kd →
  entriesBelowServices (generateRecordsForHeadlessService kd e svc).1.
Proof.
  intros Hinv. unfold generateRecordsForHeadlessService.
  destruct (getPodHostnamesFromAnnotation _); [|done].
  by apply install_entriesBelowServices.
Qed.

Lemma newService_entriesBelowServices kd obj :
  entriesBelowServices kd → entriesBelowServices (newService kd obj).
Proof.
  intros Hinv. destruct obj as [s| |]; [|done..].
  unfold newService. simpl. destruct (IsServiceIPSet s); simpl.
  - by apply install_entriesBelowServices.
  - unfold newHeadlessService.
    destruct (endpointsStore kd !! _) as [[s0|e|]|]; try done.
    by apply generate_entriesBelowServices.
Qed.

(** In every state of a run the domain path is the path of the domain, and
    every entry lies inside the subtree of some service. *)
Lemma reachable_invariant kd :
  reachable kd → wellFormed kd ∧ entriesBelowServices kd.
Proof.
  induction 1 as [dom|kd es ss _ [Hwf Hinv]|kd obj _ [Hwf Hinv]|kd old obj _ [Hwf Hinv]
                 |kd obj _ [Hwf Hinv]|kd obj _ [Hwf Hinv]].
  - split; [done|]. intros key path [record Hget]. simpl in Hget.
    by rewrite getEntry_NewTreeCache in Hget.
  - done.
  - split; [|by apply newService_entriesBelowServices].
    revert Hwf. unfold wellFormed, newService.
    destruct (assertIsService obj) as [s|]; [|done].
    destruct (IsServiceIPSet s); simpl; [done|].
    unfold newHeadlessService. destruct (endpointsStore kd !! _) as [[s0|e|]|]; try done.
    unfold generateRecordsForHeadlessService.
    by destruct (getPodHostnamesFromAnnotation _).
  - split; [|by apply newService_entriesBelowServices].
    revert Hwf. unfold wellFormed, updateService, newService.
    destruct (assertIsService obj) as [s|]; [|done].
    destruct (IsServiceIPSet s); simpl; [done|].
    unfold newHeadlessService. destruct (endpointsStore kd !! _) as [[s0|e|]|]; try done.
    unfold generateRecordsForHeadlessService.
    by destruct (getPodHostnamesFromAnnotation _).
  - unfold removeService. destruct (assertIsService obj) as [s|]; [|done].
    split; [done|]. intros key path [record Hget]. simpl in Hget.
    apply getEntry_deletePath_Some in Hget. apply (Hinv key path). by exists record.
  - unfold handleEndpointAdd. destruct obj as [|e|]; try done.
    unfold addDNSUsingEndpoints.
    destruct (getServiceFromEndpoints kd e) as [[s|]|]; try done.
    destruct (IsServiceIPSet s); [done|].
    split; [|by apply generate_entriesBelowServices].
    revert Hwf. unfold wellFormed, generateRecordsForHeadlessService.
    by destruct (getPodHostnamesFromAnnotation _).
Qed.

End Invariant.

(** ** Synthesis *)

Lemma Entries_setEntry_deep key val p rest cache :
  Entries (setEntry key val (p :: rest) cache) = Entries cache.
Proof. done. Qed.

(** Inserting the pairs of a list one after the other: the later pair wins. *)
Lemma foldl_insert_list_to_map {A V} (key : A → string) (val : A → V) (l : list A) :
  foldl (λ (m : gmap string V) a, <[key a := val a]> m) ∅ l
  = list_to_map (reverse ((λ a, (key a, val a)) <$> l)).
Proof.
  induction l as [|a l IH] using rev_ind; [done|].
  rewrite foldl_app, fmap_app, reverse_app. simpl. by rewrite IH.
Qed.

Lemma foldl_insert_lookup_elem {A V} (key : A → string) (val : A → V) (l : list A) a :
  a ∈ l →
  ∃ b, b ∈ l ∧ key b = key a ∧
       foldl (λ (m : gmap string V) a, <[key a := val a]> m) ∅ l !! key a = Some (val b).
Proof.
  intros Ha. rewrite foldl_insert_list_to_map.
  destruct (list_to_map (M := gmap string V) _ !! key a) as [v|] eqn:Hl.
  - apply elem_of_list_to_map_2 in Hl.
    apply elem_of_reverse, list_elem_of_fmap in Hl as (b & Heq & Hb).
    injection Heq as Hk ->. by exists b.
  - apply not_elem_of_list_to_map_2 in Hl. destruct Hl.
    rewrite list_elem_of_fmap. exists (key a, val a). split; [done|].
    apply elem_of_reverse, list_elem_of_fmap. by exists a.
Qed.

Section Synthesis.
Context {imp : Imports}.

Lemma addSRVRecord_unfold kd svc label labels sub port :
  addSRVRecord kd svc label labels sub port =
    if isNamed port
    then setEntry label (generateSRVRecordValue kd svc (kapi.PortNumber port) labels)
           (srvPath port) sub
    else sub.
Proof. done. Qed.

Lemma addSRV_Entries kd svc label labels ports sub :
  Entries (foldl (addSRVRecord kd svc label labels) sub ports) = Entries sub.
Proof.
  revert sub. induction ports as [|port ports IH]; intros sub; [done|].
  simpl. rewrite IH, addSRVRecord_unfold. by destruct (isNamed port).
Qed.

(** The port loop writes under one key only, and at the paths of the named
    ports only. *)
Lemma addSRV_other kd svc label labels ports sub k q :
  k ≠ label ∨ (∀ port, port ∈ ports → isNamed port = true → srvPath port ≠ q) →
  getEntry k q (foldl (addSRVRecord kd svc label labels) sub ports) = getEntry k q sub.
Proof.
  revert sub. induction ports as [|port ports IH]; intros sub Hother; [done|].
  simpl. rewrite IH.
  - rewrite addSRVRecord_unfold. destruct (isNamed port) eqn:Hn; [|done].
    apply getEntry_setEntry_ne. intros [= Hq Hk].
    destruct Hother as [Hk'|Hp]; [done|].
    by apply (Hp port); [left|..].
  - destruct Hother as [Hk|Hp]; [by left|right].
    intros port' Hin. apply Hp. by right.
Qed.

Lemma addSRV_named kd svc label labels ports sub port :
  port ∈ ports → isNamed port = true →
  (∀ other, other ∈ ports → isNamed other = true → srvPath other = srvPath port →
            kapi.PortNumber other = kapi.PortNumber port) →
  getEntry label (srvPath port) (foldl (addSRVRecord kd svc label labels) sub ports)
  = Some (generateSRVRecordValue kd svc (kapi.PortNumber port) labels).
Proof.
  revert sub. induction ports as [|last ports IH] using rev_ind; intros sub Hin Hn Hsame.
  - by apply elem_of_nil in Hin.
  - rewrite foldl_app. simpl. rewrite addSRVRecord_unfold.
    destruct (isNamed last) eqn:Hl.
    + destruct (decide (srvPath last = srvPath port)) as [Heq|Hne].
      * rewrite Heq, getEntry_setEntry_eq. f_equal. f_equal.
        apply Hsame; [|done..]. apply elem_of_app. right. by left.
      * rewrite getEntry_setEntry_ne by congruence.
        apply IH; [|done|].
        -- apply elem_of_app in Hin as [Hin|Hin]; [done|].
           apply list_elem_of_singleton in Hin. by subst.
        -- intros other Ho. apply Hsame, elem_of_app. by left.
    + apply IH; [|done|].
      * apply elem_of_app in Hin as [Hin|Hin]; [done|].
        apply list_elem_of_singleton in Hin. congruence.
      * intros other Ho. apply Hsame, elem_of_app. by left.
Qed.

Lemma srv_host kd svc port :
  generateSRVRecordValue kd svc port [] =
    skymsg.mkService
      (kapi.Name svc +:+ "." +:+ kapi.Namespace svc +:+ ".svc." +:+ domain kd)
      port 10 10 30.
Proof.
  unfold generateSRVRecordValue. simpl. done.
Qed.

Lemma getEntry_installed key (q : list string) n sub path cache :
  getEntry key ((path ++ [n]) ++ q) (setSubCache n sub path cache) = getEntry key q sub.
Proof.
  revert cache. induction path as [|p rest IH]; intros cache.
  - simpl. rewrite getEntry_cons. simpl. by rewrite lookup_insert_eq.
  - simpl. rewrite getEntry_cons. simpl. rewrite lookup_insert_eq. apply IH.
Qed.

(** C2 (amended).  The subcache that [newPortalService] builds holds at its
    root exactly one entry, the A record {host: cluster IP, port: 0}, under
    the label that [getSkyMsg] returns with it (not under the service's
    name).  For each named port with a protocol, the node at
    [_proto; _name] holds exactly one entry, under the same label: the SRV
    record with host n.ns.svc.<domain> and the port's number, provided the
    ports that share that path share the number.  The subcache is installed
    at [D ++ [svc; ns]] under key [n]. *)
Theorem portal_synthesis kd service :
  let label := (getSkyMsg (kapi.ClusterIP service) 0).2 in
  let sub := portalSubCache kd service in
  (∀ key, getEntry key [] sub =
          if decide (key = label)
          then Some (skymsg.mkService (kapi.ClusterIP service) 0 10 10 30)
          else None) ∧
  (∀ port,
      port ∈ kapi.Ports service → isNamed port = true →
      (∀ other, other ∈ kapi.Ports service → isNamed other = true →
                srvPath other = srvPath port →
                kapi.PortNumber other = kapi.PortNumber port) →
      ∀ key, getEntry key (srvPath port) sub =
             if decide (key = label)
             then Some (skymsg.mkService
                          (kapi.Name service +:+ "." +:+ kapi.Namespace service
                           +:+ ".svc." +:+ domain kd)
                          (kapi.PortNumber port) 10 10 30)
             else None) ∧
  getSubCache (servicePath kd (kapi.Namespace service) (kapi.Name service))
    (cache (newPortalService kd service)) = Some sub.
Proof.
  cbv zeta. unfold portalSubCache. simpl.
  set (label := Sprintf_x_string _).
  set (record := skymsg.mkService (kapi.ClusterIP service) 0 10 10 30).
  split; [|split].
  - intros key. rewrite getEntry_nil, addSRV_Entries. simpl.
    case_decide as Hk; [subst; apply lookup_insert_eq|].
    by rewrite lookup_insert_ne.
  - intros port Hin Hn Hsame key. case_decide as Hk.
    + subst key. rewrite (addSRV_named _ _ _ _ _ _ port) by done. by rewrite srv_host.
    + rewrite addSRV_other by (by left).
      unfold srvPath. by rewrite getEntry_cons.
  - rewrite servicePath_app. apply getSubCache_setSubCache.
Qed.
End Synthesis.

(** Witness of C2: the SRV record of the named port of dns_test.go. *)
Lemma portal_synthesis_witness :
  getEntry "6263626163303737" ["_tcp"; "_http1"]
    (portalSubCache (imp := refImports) testKubeDNS namedService)
  = Some (skymsg.mkService "testservice.default.svc.cluster.local." 80 10 10 30) ∧
  getEntry "testservice" ["_tcp"; "_http1"]
    (portalSubCache (imp := refImports) testKubeDNS namedService) = None.
Proof.
  destruct (portal_synthesis (imp := refImports) testKubeDNS namedService) as (_ & Hsrv & _).
  assert (∀ other, other ∈ kapi.Ports namedService → isNamed other = true →
            srvPath other = srvPath (kapi.mkServicePort "http1" 80 "TCP") →
            kapi.PortNumber other = 80%Z) as Hsame.
  { intros other Hin _ _. apply list_elem_of_singleton in Hin. by subst. }
  split.
  - exact (Hsrv (kapi.mkServicePort "http1" 80 "TCP") ltac:(left) eq_refl Hsame
             "6263626163303737").
  - exact (Hsrv (kapi.mkServicePort "http1" 80 "TCP") ltac:(left) eq_refl Hsame
             "testservice").
Defined.

(** Counterexample to C2 as stated: no entry is keyed by the service's name,
    at the root or at the path of the named port; and of two ports that
    share protocol and name, only the number of the last is stored. *)
Lemma portal_synthesis_counterexample :
  getEntry "testservice" [] (portalSubCache (imp := refImports) testKubeDNS testService)
    = None ∧
  getEntry "testservice" ["_tcp"; "_http1"]
    (portalSubCache (imp := refImports) testKubeDNS namedService) = None ∧
  entriesOf (default NewTreeCache
               (getSubCache ["_tcp"; "_http"]
                  (portalSubCache (imp := refImports) testKubeDNS twoPortsService)))
    = [skymsg.mkService "testservice.default.svc.cluster.local." 81 10 10 30].
Proof. vm_compute. done. Qed.


(** ** Headless services *)


Lemma isPodRecord_other kd label rest :
  label ≠ "pod" → isPodRecord kd (domainPath kd ++ label :: rest) = false.
Proof.
  intros Hl. unfold isPodRecord.
  destruct (negb _); [done|].
  rewrite lookup_app_r, Nat.sub_diag by done. simpl.
  by destruct (String.eqb_spec label "pod").
Qed.

Lemma isPodRecord_withCache kd c path :
  isPodRecord (withCache kd c) path = isPodRecord kd path.
Proof. done. Qed.


Section Headless.
Context {imp : Imports}.

Lemma addAddress_Entries kd svc podHostnames ports sub address :
  Entries (addAddress kd svc podHostnames ports sub address)
  = <[endpointNameOf podHostnames address := (getSkyMsg (kapi.IP address) 0).1]>
      (Entries sub).
Proof. unfold addAddress. by rewrite addSRV_Entries. Qed.

Lemma addresses_Entries kd svc podHostnames ports addresses sub :
  Entries (foldl (addAddress kd svc podHostnames ports) sub addresses)
  = foldl (λ m a, <[endpointNameOf podHostnames a := (getSkyMsg (kapi.IP a) 0).1]> m)
      (Entries sub) addresses.
Proof.
  revert sub. induction addresses as [|a addresses IH]; intros sub; [done|].
  simpl. by rewrite IH, addAddress_Entries.
Qed.

(** The root of a headless subcache holds the A records, keyed by the
    endpoints' names; a later address replaces an earlier one of the same
    name. *)
Lemma headless_Entries kd e svc podHostnames :
  Entries (headlessSubCache kd e svc podHostnames)
  = foldl (λ m a, <[endpointNameOf podHostnames a := (getSkyMsg (kapi.IP a) 0).1]> m)
      ∅ (allAddresses e).
Proof.
  unfold headlessSubCache, allAddresses.
  change (∅ : gmap string skymsg.Service) with (Entries NewTreeCache).
  generalize NewTreeCache.
  induction (kapi.Subsets e) as [|subset subsets IH]; intros sub; [done|].
  simpl. by rewrite foldl_app, IH, addresses_Entries.
Qed.

Lemma endpointNameOf_hash podHostnames address :
  getHostname address podHostnames = None →
  endpointNameOf podHostnames address
  = Sprintf_x_string (Sprintf_x_uint32 (fnv32a (Sprintf_v
      (skymsg.mkService (kapi.IP address) 0 10 10 30)))).
Proof. intros Hh. unfold endpointNameOf. simpl. by rewrite Hh. Qed.

Lemma getHostname_None address podHostnames :
  kapi.Hostname address = "" →
  (∀ hostRecord, podHostnames !! kapi.IP address = Some hostRecord →
                 IsDNS1123Label (HostName hostRecord) = false) →
  getHostname address podHostnames = None.
Proof.
  intros Hh Hann. unfold getHostname. rewrite Hh. simpl.
  destruct (podHostnames !! kapi.IP address) as [hr|] eqn:Hl; [|done].
  by rewrite (Hann hr).
Qed.

(** C1 (amended).  For an address of the endpoints object of a headless
    service that carries no hostname and gets no valid one from the
    annotation, the A record is stored under the label that [getSkyMsg]
    returns with it: the hex form of the string that holds the record's
    FNV-1a hash in hex (not the IP with dashes for dots).  The record
    {host: IP, port: 0} is found at path [D ++ [svc; ns; n; label]], provided
    the addresses that get the same name carry the same IP. *)
Theorem headless_label kd e svc podHostnames address :
  getPodHostnamesFromAnnotation (kapi.Annotations e) = inl podHostnames →
  address ∈ allAddresses e →
  kapi.Hostname address = "" →
  (∀ hostRecord, podHostnames !! kapi.IP address = Some hostRecord →
                 IsDNS1123Label (HostName hostRecord) = false) →
  (∀ other, other ∈ allAddresses e →
            endpointNameOf podHostnames other = endpointNameOf podHostnames address →
            kapi.IP other = kapi.IP address) →
  let record := skymsg.mkService (kapi.IP address) 0 10 10 30 in
  let label := Sprintf_x_string (Sprintf_x_uint32 (fnv32a (Sprintf_v record))) in
  endpointNameOf podHostnames address = label ∧
  getEntry label (servicePath kd (kapi.Namespace svc) (kapi.Name svc))
    (cache (generateRecordsForHeadlessService kd e svc).1) = Some record.
Proof.
  intros Hann Hin Hhost Hinvalid Hsame record label.
  assert (endpointNameOf podHostnames address = label) as Hname.
  { by apply endpointNameOf_hash, getHostname_None. }
  split; [done|].
  unfold generateRecordsForHeadlessService. rewrite Hann. simpl.
  rewrite servicePath_app, <- (app_nil_r (_ ++ [kapi.Name svc])), getEntry_installed.
  rewrite getEntry_nil, headless_Entries.
  destruct (foldl_insert_lookup_elem (endpointNameOf podHostnames)
              (λ a, (getSkyMsg (kapi.IP a) 0).1) _ _ Hin) as (b & Hb & Hkey & Hlook).
  rewrite <- Hname, Hlook. simpl. unfold record. by rewrite (Hsame b).
Qed.

End Headless.

(** Witness of C1: the first address of the headless service of
    dns_test.go. *)
Lemma headless_label_witness :
  endpointNameOf (imp := refImports) ∅ (address "10.0.0.1") = "3234633364383235" ∧
  getEntry "3234633364383235" ["local"; "cluster"; "svc"; "default"; "testservice"]
    (cache (generateRecordsForHeadlessService (imp := refImports)
              testKubeDNS testEndpoints headlessService).1)
  = Some (ARecord "10.0.0.1").
Proof.
  apply (headless_label (imp := refImports) testKubeDNS testEndpoints headlessService ∅
           (address "10.0.0.1")).
  - reflexivity.
  - left.
  - reflexivity.
  - intros hostRecord Hl. rewrite lookup_empty in Hl. discriminate.
  - intros other Hin Hname.
    change (allAddresses testEndpoints)
      with [address "10.0.0.1"; address "10.0.0.2"; address "10.0.0.3"; address "10.0.0.4"]
      in Hin.
    apply elem_of_cons in Hin as [->|Hin]; [reflexivity|].
    exfalso.
    repeat (apply elem_of_cons in Hin as [->|Hin]; [vm_compute in Hname; discriminate|]).
    clear Hname. by apply elem_of_nil in Hin.
Defined.

(** Counterexample to C1 as stated: the address 10.0.0.1 has no hostname of
    either kind, and nothing is stored under 10-0-0-1. *)
Lemma headless_label_counterexample :
  kapi.Hostname (address "10.0.0.1") = "" ∧
  getPodHostnamesFromAnnotation (imp := refImports) (kapi.Annotations testEndpoints) = inl ∅ ∧
  Replace "10.0.0.1" "." "-" = "10-0-0-1" ∧
  getEntry "10-0-0-1" (servicePath testKubeDNS "default" "testservice")
    (cache (generateRecordsForHeadlessService (imp := refImports)
              testKubeDNS testEndpoints headlessService).1) = None.
Proof. vm_compute. done. Qed.




(** ** Portal services and the equivalent queries *)

(** The queries with wildcards above a service's subtree: when the cache
    holds nothing else that the widest of them matches, they find the entries
    of the subtree's root. *)
Lemma walk_service root ns n sub l1 l2 :
  ns ≠ "*" → n ≠ "*" →
  l1 = serviceSubdomain ∨ l1 = "*" → l2 = ns ∨ l2 = "*" →
  walkWildcards ["*"; "*"; n] [setSubCache n NewTreeCache [serviceSubdomain; ns] root] = [] →
  walkWildcards [l1; l2; n] [setSubCache n sub [serviceSubdomain; ns] root]
  ≡ₚ entriesOf sub.
Proof.
  intros Hns Hn Hl1 Hl2 Hnone. simpl setSubCache in *.
  set (x0 := default NewTreeCache (ChildNodes root !! serviceSubdomain)) in *.
  set (y0 := default NewTreeCache (ChildNodes x0 !! ns)) in *.
  apply walk_level_empty in Hnone as [Hx Hothers1]; [|done].
  apply walk_level_empty in Hx as [Hy Hothers2]; [|done].
  rewrite walk_last in Hy by done. unfold selectLast in Hy. simpl in Hy.
  destruct (Entries y0 !! n) eqn:Hentry; [done|]. clear Hy.
  rewrite walk_level; [|done|done|done|].
  - rewrite walk_level; [|done|done|done|].
    + rewrite walk_last by done. unfold selectLast. simpl.
      by rewrite Hentry, lookup_insert_eq.
    + done.
  - intros other Hin. destruct Hl2 as [->| ->].
    + apply walk_star_empty; [done|]. by apply Hothers1.
    + by apply Hothers1.
Qed.

Section Portal.
Context {imp : Imports}.

Lemma portal_entriesOf kd service :
  entriesOf (portalSubCache kd service)
  = [skymsg.mkService (kapi.ClusterIP service) 0 10 10 30].
Proof.
  unfold entriesOf, portalSubCache. simpl. rewrite addSRV_Entries. simpl.
  by rewrite insert_empty, map_to_list_singleton.
Qed.

(** C4 (amended).  After a portal service [n] of namespace [ns] was added,
    each of the five equivalent queries returns the one record whose host
    is the cluster IP, provided the cache holds nothing else that
    n.*.*.<domain> matches: with the service's own subtree left empty that
    query finds nothing.  (Names are labels without dots other than [*],
    the domain is not empty, and the state is one of a run.) *)
Theorem portal_equivalent_queries kd service query :
  reachable kd →
  TrimRight (domain kd) "." ≠ "" →
  "*" ∉ domainPath kd →
  hasByte "." (kapi.Name service) = false →
  hasByte "." (kapi.Namespace service) = false →
  kapi.Name service ≠ "*" → kapi.Namespace service ≠ "*" →
  IsServiceIPSet service = true →
  getValuesForPathWithWildcards (domainPath kd ++ ["*"; "*"; kapi.Name service])
    (setSubCache (kapi.Name service) NewTreeCache
       (domainPath kd ++ [serviceSubdomain; kapi.Namespace service]) (cache kd)) = [] →
  query ∈ equivalentQueries kd (kapi.Namespace service) (kapi.Name service) →
  Records (newService kd (ObjService service)) query false
  = inl [skymsg.mkService (kapi.ClusterIP service) 0 10 10 30].
Proof.
  intros Hrun Hd HD Hn Hns Hnstar Hnsstar Hip Hnone Hq.
  destruct (reachable_invariant kd Hrun) as [Hwf _].
  set (n := kapi.Name service) in *. set (ns := kapi.Namespace service) in *.
  unfold newService. simpl. rewrite Hip. simpl. unfold newPortalService.
  fold n ns. set (sub := portalSubCache kd service).
  rewrite Records_unfold. cbv zeta. rewrite isPodRecord_withCache. cbn [cache withCache].
  assert (∀ path,
            path ∈ pathOfName <$> equivalentQueries kd ns n →
            isPodRecord kd path = false ∧
            getValuesForPathWithWildcards path
              (setSubCache n sub (domainPath kd ++ [serviceSubdomain; ns]) (cache kd))
            ≡ₚ entriesOf sub) as Hpaths.
  { intros path. rewrite equivalentQueries_paths by done.
    unfold getValuesForPathWithWildcards in *.
    rewrite walk_literal in Hnone by done.
    rewrite (getSubCache_setSubCache_app _ _ _ [serviceSubdomain; ns]) in Hnone.
    assert (∀ l1 l2, l1 = serviceSubdomain ∨ l1 = "*" → l2 = ns ∨ l2 = "*" →
              isPodRecord kd (domainPath kd ++ [l1; l2; n]) = false ∧
              walkWildcards (domainPath kd ++ [l1; l2; n])
                [setSubCache n sub (domainPath kd ++ [serviceSubdomain; ns]) (cache kd)]
              ≡ₚ entriesOf sub) as Hwild.
    { intros l1 l2 Hl1 Hl2. split.
      - apply isPodRecord_other. by destruct Hl1 as [->| ->].
      - rewrite walk_literal by done.
        rewrite (getSubCache_setSubCache_app _ _ _ [serviceSubdomain; ns]).
        by apply walk_service. }
    intros Hin.
    repeat (apply elem_of_cons in Hin as [->|Hin]).
    - apply Hwild; by left.
    - apply Hwild; [by left|by right].
    - apply Hwild; [by right|by left].
    - apply Hwild; by right.
    - split; [by apply isPodRecord_other|].
      change (domainPath kd ++ ["svc"; ns; n; "*"])
        with (domainPath kd ++ [serviceSubdomain; ns; n] ++ ["*"]).
      rewrite app_assoc. fold (servicePath kd ns n).
      rewrite walk_literal; [| |done].
      + rewrite servicePath_app, getSubCache_setSubCache. by rewrite walk_last_star.
      + unfold servicePath. intros [?|Hin]%elem_of_app; [done|].
        repeat (apply elem_of_cons in Hin as [?|Hin]; [done|]).
        by apply elem_of_nil in Hin.
    - by apply elem_of_nil in Hin. }
  destruct (Hpaths (pathOfName query)) as [Hpod Hfound].
  { by apply list_elem_of_fmap_2. }
  rewrite Hpod. rewrite (portal_entriesOf kd service : entriesOf sub = _) in Hfound.
  apply Permutation_singleton_r in Hfound. by rewrite Hfound.
Qed.
End Portal.

(** Witness of C4: the namespace wildcard for the service of dns_test.go. *)
Lemma portal_equivalent_queries_witness :
  Records (imp := refImports)
    (newService (imp := refImports) testKubeDNS (ObjService testService))
    "testservice.*.svc.cluster.local." false = inl [ARecord "1.2.3.4"].
Proof.
  apply (portal_equivalent_queries (imp := refImports) testKubeDNS testService).
  - apply reachable_new.
  - by vm_compute.
  - apply (bool_decide_unpack _). by vm_compute.
  - reflexivity.
  - reflexivity.
  - by vm_compute.
  - by vm_compute.
  - reflexivity.
  - reflexivity.
  - right. left.
Defined.

(** Counterexample to C4 as stated: with a service of the same name in
    another namespace, the exact name resolves to one record and the
    namespace wildcard to two. *)
Lemma portal_equivalent_queries_counterexample :
  Records (imp := refImports)
    (newService (imp := refImports) withOtherService (ObjService testService))
    "testservice.default.svc.cluster.local." false = inl [ARecord "1.2.3.4"] ∧
  Records (imp := refImports)
    (newService (imp := refImports) withOtherService (ObjService testService))
    "testservice.*.svc.cluster.local." false = inl [ARecord "5.6.7.8"; ARecord "1.2.3.4"].
Proof. vm_compute. done. Qed.

(** ** Further properties of dns.go *)

(** ** reverseArray *)

(** X1.  [reverseArray] keeps the length of the slice, puts at index [i]
    the element that was at index [len(arr) - 1 - i], and applied twice
    gives the slice back. *)
Theorem reverseArray_index (arr : list string) :
  length (reverseArray arr) = length arr ∧
  (∀ i, (i < length arr)%nat →
        reverseArray arr !! i = arr !! (length arr - 1 - i)%nat) ∧
  reverseArray (reverseArray arr) = arr.
Proof.
  assert (∀ l : list string,
            length (reverseArray l) = length l ∧
            ∀ i, (i < length l)%nat →
                 reverseArray l !! i = l !! (length l - 1 - i)%nat) as Hspec.
  { intros l. unfold reverseArray.
    pose proof (Nat.div_mod_eq (length l) 2) as Hd.
    pose proof (Nat.mod_upper_bound (length l) 2 ltac:(done)) as Hm.
    destruct (reverse_rounds l (length l / 2)) as [Hlen Hlook]; [lia|].
    split; [done|]. intros i Hi. rewrite Hlook by done.
    case_decide as Hc.
    - f_equal. lia.
    - f_equal. lia. }
  destruct (Hspec arr) as [Hlen Hlook]. split; [done|]. split; [done|].
  destruct (Hspec (reverseArray arr)) as [Hlen2 Hlook2].
  apply list_eq. intros i.
  destruct (decide (i < length arr)%nat) as [Hi|Hi].
  - rewrite Hlook2, Hlen, Hlook by lia. f_equal. lia.
  - rewrite !lookup_ge_None_2 by lia. done.
Qed.

(** ** The resolver on names *)



(** X3.  The index expressions [path[len(path)-1]] of [Records] and of
    [getPodIP] are in range for every name: no query makes the resolver
    panic. *)
Theorem Records_no_panic {imp : Imports} kd name exact :
  Records kd name exact ≠ inr PanicIndex.
Proof.
  rewrite Records_unfold. cbv zeta.
  destruct (last_label _ (pathOfName_nonempty name)) as [key Hlast].
  destruct (isPodRecord kd (pathOfName name)).
  - unfold getPodIP. rewrite Hlast. by destruct (ParseIP _).
  - destruct exact.
    + rewrite Hlast. destruct (string_empty key); [done|].
      by destruct (getEntry _ _ _).
    + by destruct (Nat.eqb _ _).
Qed.

(** X4.  The number of records of a query that succeeds: at most one in
    exact mode, at least one in wildcard mode (there an empty result is the
    not-found error, never an empty list). *)
Theorem Records_count {imp : Imports} kd name exact records :
  Records kd name exact = inl records →
  if exact then (length records ≤ 1)%nat else (1 ≤ length records)%nat.
Proof.
  rewrite Records_unfold. cbv zeta.
  destruct (last_label _ (pathOfName_nonempty name)) as [key Hlast].
  destruct (isPodRecord kd (pathOfName name)).
  - unfold getPodIP. rewrite Hlast.
    destruct (ParseIP _); [|done]. intros [= <-]. destruct exact; simpl; lia.
  - destruct exact.
    + rewrite Hlast. destruct (string_empty key); [intros [= <-]; simpl; lia|].
      destruct (getEntry _ _ _); [|done]. intros [= <-]. simpl. lia.
    + destruct (getValuesForPathWithWildcards _ _) as [|r rs]; [done|].
      intros [= <-]. simpl. lia.
Qed.



(** ** ReverseRecord *)

(** X6.  [ReverseRecord] never gives a record.  Its error is the wildcard
    message exactly when a label of the name, as [Records] splits it, is
    [*], and the one-record message exactly when none is. *)
Theorem ReverseRecord_always_fails name :
  (ReverseRecord name).1 = None ∧
  ((ReverseRecord name).2 = "reverse can not contain wildcards" ↔
   "*" ∈ pathOfName name) ∧
  ((ReverseRecord name).2 = "must be exactly one service record" ↔
   "*" ∉ pathOfName name).
Proof.
  rewrite pathOfName_reverse, elem_of_reverse.
  unfold ReverseRecord. cbv zeta.
  destruct (existsb _ _) eqn:Hex; simpl.
  - apply existsb_exists in Hex as (k & Hin & Hk).
    apply String.eqb_eq in Hk. subst k. apply list_elem_of_In in Hin.
    split; [done|]. naive_solver.
  - assert ("*" ∉ Split (TrimRight name ".") ".") as Hnot.
    { intros Hin%list_elem_of_In.
      assert (existsb (λ k, String.eqb k "*") (Split (TrimRight name ".") ".") = true)
        as Hex'; [|congruence].
      apply existsb_exists. exists "*". by rewrite String.eqb_refl. }
    split; [done|]. naive_solver.
Qed.

(** ** The pod-hostnames annotation *)

(** X7.  [getPodHostnamesFromAnnotation] fails exactly when the
    pod-hostnames annotation is present, is not empty and is rejected by
    [json.Unmarshal]; no annotation, an empty one and one that decodes
    give a map. *)
Theorem annotation_error_iff {imp : Imports} (annotations : gmap string string) :
  (∃ err, getPodHostnamesFromAnnotation annotations = inr err) ↔
  ∃ payload, annotations !! PodHostnamesAnnotation = Some payload ∧
             payload ≠ "" ∧ json_Unmarshal payload = None.
Proof.
  unfold getPodHostnamesFromAnnotation. split.
  - intros [err Herr].
    destruct (annotations !! PodHostnamesAnnotation) as [payload|]; [|done].
    exists payload. destruct payload as [|a payload]; [done|]. simpl in Herr.
    by destruct (json_Unmarshal _).
  - intros (payload & -> & Hne & Hbad). destruct payload; [done|]. simpl.
    rewrite Hbad. by eexists.
Qed.

(** ** The callbacks *)

Lemma withCache_same kd : withCache kd (cache kd) = kd.
Proof. by destruct kd. Qed.

Section Callbacks.
Context {imp : Imports}.

Lemma generate_withCache kd e svc :
  ∃ c, (generateRecordsForHeadlessService kd e svc).1 = withCache kd c.
Proof.
  unfold generateRecordsForHeadlessService.
  destruct (getPodHostnamesFromAnnotation _); simpl; [by eexists|].
  exists (cache kd). by rewrite withCache_same.
Qed.

(** X8.  The four callbacks leave the domain, the domain path and the two
    stores of the KubeDNS as they were, whatever the object: the state
    after the call is the state before with, at most, another cache. *)
Theorem callbacks_write_the_cache_only kd obj oldObj :
  (∃ c, newService kd obj = withCache kd c) ∧
  (∃ c, updateService kd oldObj obj = withCache kd c) ∧
  (∃ c, removeService kd obj = withCache kd c) ∧
  (∃ c, handleEndpointAdd kd obj = withCache kd c).
Proof.
  assert (∃ c, kd = withCache kd c) as Hsame.
  { exists (cache kd). by rewrite withCache_same. }
  assert (∃ c, newService kd obj = withCache kd c) as Hnew.
  { unfold newService. destruct (assertIsService obj) as [s|]; [|done].
    destruct (IsServiceIPSet s); simpl; [by eexists|].
    unfold newHeadlessService.
    destruct (endpointsStore kd !! _) as [[s0|e|]|]; try done.
    apply generate_withCache. }
  split; [done|]. split; [done|]. split.
  - unfold removeService. destruct (assertIsService obj); [by eexists|done].
  - unfold handleEndpointAdd. destruct obj as [|e|]; try done.
    unfold addDNSUsingEndpoints.
    destruct (getServiceFromEndpoints kd e) as [[s|]|]; try done.
    destruct (IsServiceIPSet s); [done|]. apply generate_withCache.
Qed.

(** X9.  [handleEndpointAdd] changes the state only when the object is an
    endpoints object whose key the services store resolves to a headless
    service.  An object of another kind, endpoints without a service, a
    store entry that is not a service, and the endpoints of a portal service
    all leave the state as it was. *)
Theorem handleEndpointAdd_headless_only kd obj :
  handleEndpointAdd kd obj ≠ kd →
  ∃ e svc, obj = ObjEndpoints e ∧
           servicesStore kd !! MetaNamespaceKey (kapi.ENamespace e) (kapi.EName e)
             = Some (ObjService svc) ∧
           IsServiceIPSet svc = false.
Proof.
  unfold handleEndpointAdd. destruct obj as [|e|]; try done.
  unfold addDNSUsingEndpoints, getServiceFromEndpoints.
  destruct (servicesStore kd !! _) as [[svc| |]|] eqn:Hstore; try done.
  cbn [assertIsService]. destruct (IsServiceIPSet svc) eqn:Hip; [done|].
  intros _. by exists e, svc.
Qed.

(** X10.  [newService] changes the state only when the object is a service
    that is a portal service, or a headless service whose endpoints object
    is in the endpoints store: a headless service that comes before its
    endpoints leaves no trace. *)
Theorem newService_needs_endpoints kd obj :
  newService kd obj ≠ kd →
  ∃ service, obj = ObjService service ∧
    (IsServiceIPSet service = true ∨
     ∃ e, endpointsStore kd
            !! MetaNamespaceKey (kapi.Namespace service) (kapi.Name service)
          = Some (ObjEndpoints e)).
Proof.
  unfold newService. destruct obj as [service| |]; try done. cbn [assertIsService].
  intros Hchanged. exists service. split; [done|].
  destruct (IsServiceIPSet service); [by left|right].
  cbn [negb] in Hchanged. unfold newHeadlessService in Hchanged.
  destruct (endpointsStore kd !! _) as [[s0|e|]|]; [done|by exists e|done|done].
Qed.

(** X11.  For a headless service and its endpoints object, each in the
    store of its kind under the key of the other, the event of the endpoints
    and the event of the service lead to the same state: the order in which
    the two objects arrive does not matter once both are stored. *)
Theorem endpoints_and_service_events_agree kd e svc :
  servicesStore kd !! MetaNamespaceKey (kapi.ENamespace e) (kapi.EName e)
    = Some (ObjService svc) →
  endpointsStore kd !! MetaNamespaceKey (kapi.Namespace svc) (kapi.Name svc)
    = Some (ObjEndpoints e) →
  IsServiceIPSet svc = false →
  handleEndpointAdd kd (ObjEndpoints e) = newService kd (ObjService svc).
Proof.
  intros Hsvc He Hip.
  unfold handleEndpointAdd, addDNSUsingEndpoints, getServiceFromEndpoints, newService,
    newHeadlessService.
  rewrite Hsvc. cbn [assertIsService]. rewrite Hip, He. reflexivity.
Qed.
End Callbacks.


(** Witness of X4: the namespace wildcard with two services of one name. *)
Lemma Records_count_witness :
  Records (imp := refImports)
    (newService (imp := refImports) withOtherService (ObjService testService))
    "testservice.*.svc.cluster.local." false
  = inl [ARecord "5.6.7.8"; ARecord "1.2.3.4"] ∧
  (1 ≤ length [ARecord "5.6.7.8"; ARecord "1.2.3.4"])%nat.
Proof.
  assert (Records (imp := refImports)
            (newService (imp := refImports) withOtherService (ObjService testService))
            "testservice.*.svc.cluster.local." false
          = inl [ARecord "5.6.7.8"; ARecord "1.2.3.4"]) as Hrecords by by vm_compute.
  split; [exact Hrecords|].
  exact (Records_count (imp := refImports) _ _ false _ Hrecords).
Defined.


(** Witness of X9: the endpoints of the headless service of dns_test.go. *)
Lemma handleEndpointAdd_headless_only_witness :
  ∃ e svc,
    ObjEndpoints testEndpoints = ObjEndpoints e ∧
    servicesStore (withStores testKubeDNS None)
      !! MetaNamespaceKey (kapi.ENamespace e) (kapi.EName e) = Some (ObjService svc) ∧
    IsServiceIPSet svc = false.
Proof.
  apply (handleEndpointAdd_headless_only (imp := refImports)
           (withStores testKubeDNS None) (ObjEndpoints testEndpoints)).
  intros Hsame.
  apply (f_equal (λ kd, getSubCache (servicePath testKubeDNS "default" "testservice")
                          (cache kd))) in Hsame.
  vm_compute in Hsame. discriminate.
Defined.

(** Witness of X10: the headless service of dns_test.go with its endpoints stored. *)
Lemma newService_needs_endpoints_witness :
  ∃ service,
    ObjService headlessService = ObjService service ∧
    (IsServiceIPSet service = true ∨
     ∃ e, endpointsStore (withStores testKubeDNS (Some testEndpoints))
            !! MetaNamespaceKey (kapi.Namespace service) (kapi.Name service)
          = Some (ObjEndpoints e)).
Proof.
  apply (newService_needs_endpoints (imp := refImports)
           (withStores testKubeDNS (Some testEndpoints)) (ObjService headlessService)).
  intros Hsame.
  apply (f_equal (λ kd, getSubCache (servicePath testKubeDNS "default" "testservice")
                          (cache kd))) in Hsame.
  vm_compute in Hsame. discriminate.
Defined.

(** Witness of X11: the headless service of dns_test.go and its endpoints. *)
Lemma events_agree_witness :
  handleEndpointAdd (imp := refImports)
    (withStores testKubeDNS (Some testEndpoints)) (ObjEndpoints testEndpoints)
  = newService (imp := refImports)
      (withStores testKubeDNS (Some testEndpoints)) (ObjService headlessService).
Proof.
  apply (endpoints_and_service_events_agree (imp := refImports)
           (withStores testKubeDNS (Some testEndpoints)) testEndpoints headlessService).
  - by vm_compute.
  - by vm_compute.
  - reflexivity.
Defined.

(** ** Names as paths, again *)

Lemma byte_eqb_eq a b : byte_eqb a b = true → a = b.
Proof.
  unfold byte_eqb. intros H%N.eqb_eq.
  by rewrite <- (ascii_N_embedding a), <- (ascii_N_embedding b), H.
Qed.

Lemma byte_eqb_sym a b : byte_eqb a b = byte_eqb b a.
Proof. unfold byte_eqb. apply N.eqb_sym. Qed.

Lemma Replace_no_old s old new :
  byte_eqb old new = false → hasByte old (Replace s old new) = false.
Proof.
  intros Hne. induction s as [|a s IH]; [done|]. simpl.
  rewrite IH, orb_false_r.
  destruct (byte_eqb a old) eqn:Ha; [by rewrite byte_eqb_sym|done].
Qed.

Lemma Replace_inverse s old new :
  hasByte new s = false → Replace (Replace s old new) new old = s.
Proof.
  induction s as [|a s IH]; [done|]. simpl.
  intros [Ha Hs]%orb_false_iff. rewrite IH by done. f_equal.
  destruct (byte_eqb a old) eqn:Hold.
  - unfold byte_eqb at 1. rewrite N.eqb_refl. symmetry. by apply byte_eqb_eq.
  - by rewrite Ha.
Qed.

(** A label put before a name comes last in the path. *)
Lemma pathOfName_label label name :
  hasByte "." label = false → TrimRight name "." ≠ "" →
  pathOfName (label +:+ "." +:+ name) = pathOfName name ++ [label] ∧
  TrimRight (label +:+ "." +:+ name) "." ≠ "".
Proof.
  intros Hlabel Hname. split.
  - rewrite !pathOfName_reverse.
    rewrite (TrimRight_app label ("." +:+ name))
      by exact (TrimRight_app_nonempty "." name "." Hname).
    rewrite (TrimRight_app "." name) by done.
    change ("." +:+ TrimRight name ".") with (String "." (TrimRight name ".")).
    by rewrite Split_app, reverse_cons.
  - apply TrimRight_app_nonempty. exact (TrimRight_app_nonempty "." name "." Hname).
Qed.

Lemma serviceFQDN_trimmed kd ns n :
  TrimRight (domain kd) "." ≠ "" → TrimRight (serviceFQDN kd ns n) "." ≠ "".
Proof.
  intros Hd. unfold serviceFQDN.
  apply TrimRight_app_nonempty, (TrimRight_app_nonempty "."), TrimRight_app_nonempty.
  exact (TrimRight_app_nonempty ".svc." (domain kd) "." Hd).
Qed.

Lemma no_wildcard_forallb (path : list string) :
  "*" ∉ path → forallb (λ segment, negb (String.eqb segment "*")) path = true.
Proof.
  intros Hpath. apply forallb_forall. intros segment Hin%list_elem_of_In.
  destruct (String.eqb_spec segment "*"); [by subst|done].
Qed.

(** ** Pod names *)

(** X12.  The name of a pod resolves to its address.  For an IP [ip] that
    [net.ParseIP] accepts and that holds no dash, the name made of the
    dash-encoded [ip], the namespace, [pod] and the domain resolves, in both
    modes and in every state, to the one record [{host: ip, port: 0}]: the
    [strings.Replace] of [getPodIP] undoes the encoding. *)
Theorem pod_name_round_trip {imp : Imports} kd ns ip exact :
  wellFormed kd →
  TrimRight (domain kd) "." ≠ "" →
  "*" ∉ domainPath kd →
  hasByte "." ns = false → ns ≠ "*" →
  hasByte "-" ip = false →
  ParseIP ip = true →
  Records kd (podFQDN kd ns ip) exact = inl [skymsg.mkService ip 0 10 10 30].
Proof.
  intros Hwf Hd HD Hns Hnsstar Hdash Hip.
  set (dashed := Replace ip "." "-").
  assert (Replace dashed "-" "." = ip) as Hback by by apply Replace_inverse.
  assert (dashed ≠ "*") as Hdashed.
  { intros Hstar. rewrite Hstar in Hback. by rewrite <- Hback in Hip. }
  assert (pathOfName (podFQDN kd ns ip) = domainPath kd ++ ["pod"; ns; dashed]) as Hpath.
  { unfold podFQDN. fold dashed.
    change (dashed +:+ "." +:+ ns +:+ ".pod." +:+ domain kd)
      with (dashed +:+ "." +:+ ns +:+ "." +:+ "pod" +:+ "." +:+ domain kd).
    destruct (pathOfName_label "pod" (domain kd)) as [H1 Ht1]; [done..|].
    destruct (pathOfName_label ns _ Hns Ht1) as [H2 Ht2].
    destruct (pathOfName_label dashed _ (Replace_no_old ip "." "-" eq_refl) Ht2) as [H3 _].
    rewrite H3, H2, H1, <- Hwf, <- !app_assoc. done. }
  assert (isPodRecord kd (pathOfName (podFQDN kd ns ip)) = true) as Hpod.
  { rewrite Hpath. unfold isPodRecord.
    rewrite length_app, Nat.eqb_refl. cbn [negb].
    rewrite lookup_app_r, Nat.sub_diag by done. cbn [lookup list_lookup].
    rewrite String.eqb_refl. cbn [negb].
    apply no_wildcard_forallb.
    intros [?|Hin]%elem_of_app; [done|].
    repeat (apply elem_of_cons in Hin as [?|Hin]; [done|]).
    by apply elem_of_nil in Hin. }
  rewrite (Records_pod kd _ exact dashed Hpod).
  - by rewrite Hback, Hip.
  - rewrite Hpath, length_app. cbn [length].
    rewrite lookup_app_r by lia.
    by replace (length (domainPath kd) + 3 - 1 - length (domainPath kd))%nat with 2%nat by lia.
Qed.

(** ** Queries below a service *)

Lemma getSubCache_installed (q : list string) n sub path cache :
  getSubCache ((path ++ [n]) ++ q) (setSubCache n sub path cache) = getSubCache q sub.
Proof.
  revert cache. induction path as [|p rest IH]; intros cache; simpl.
  - by rewrite lookup_insert_eq.
  - rewrite lookup_insert_eq. apply IH.
Qed.

Lemma getSubCache_snoc path label cache :
  getSubCache (path ++ [label]) cache =
    match getSubCache path cache with
    | Some node => ChildNodes node !! label
    | None => None
    end.
Proof.
  revert cache. induction path as [|p path IH]; intros cache; simpl.
  - by destruct (ChildNodes cache !! label).
  - destruct (ChildNodes cache !! p); [apply IH|done].
Qed.

Lemma servicePath_literal kd ns n :
  "*" ∉ domainPath kd → ns ≠ "*" → n ≠ "*" → "*" ∉ servicePath kd ns n.
Proof.
  intros HD Hns Hn. unfold servicePath. intros [?|Hin]%elem_of_app; [done|].
  repeat (apply elem_of_cons in Hin as [?|Hin]; [done|]).
  by apply elem_of_nil in Hin.
Qed.

(** A node of a subcache that holds one entry, two labels down. *)
Lemma selectLast_single sub a b label record :
  (∀ key, getEntry key [a; b] sub = if decide (key = label) then Some record else None) →
  getEntry b [a] sub = None →
  ∃ node, getSubCache [a] sub = Some node ∧ selectLast b node = [record].
Proof.
  intros Hone Hfree. pose proof (Hone label) as Hlabel.
  rewrite decide_True in Hlabel by done.
  unfold getEntry in *. simpl in *.
  destruct (ChildNodes sub !! a) as [node|]; [|done].
  exists node. split; [done|]. unfold selectLast. rewrite Hfree.
  destruct (ChildNodes node !! b) as [child|]; [|done].
  assert (Entries child = {[label := record]}) as Hentries.
  { apply map_eq. intros key. rewrite Hone. case_decide as Hk.
    - subst. by rewrite lookup_singleton_eq.
    - by rewrite lookup_singleton_ne. }
  unfold entriesOf. by rewrite Hentries, map_to_list_singleton.
Qed.

Section PortalQueries.
Context {imp : Imports}.

Lemma portal_entry_paths kd service key q :
  q ≠ [] →
  (∀ port, port ∈ kapi.Ports service → isNamed port = true → srvPath port ≠ q) →
  getEntry key q (portalSubCache kd service) = None.
Proof.
  intros Hq Hports. unfold portalSubCache. simpl.
  rewrite addSRV_other by by right.
  destruct q as [|a q]; [done|]. by rewrite getEntry_cons.
Qed.

(** X13.  After a portal service was added, the wildcard-mode query for the
    name [_<port name>._<protocol in lower case>.n.ns.svc.<domain>] of one
    of its named ports returns exactly one record, the SRV record with the
    name of the service as host and the number of the port, provided the
    ports of the service that share that name and protocol carry the same
    number. *)
Theorem portal_srv_query kd service port :
  wellFormed kd →
  TrimRight (domain kd) "." ≠ "" →
  "*" ∉ domainPath kd →
  hasByte "." (kapi.Name service) = false →
  hasByte "." (kapi.Namespace service) = false →
  kapi.Name service ≠ "*" → kapi.Namespace service ≠ "*" →
  IsServiceIPSet service = true →
  port ∈ kapi.Ports service → isNamed port = true →
  hasByte "." (kapi.PortName port) = false →
  hasByte "." (ToLower (kapi.Protocol port)) = false →
  (∀ other, other ∈ kapi.Ports service → isNamed other = true →
            srvPath other = srvPath port →
            kapi.PortNumber other = kapi.PortNumber port) →
  Records (newService kd (ObjService service))
    (srvFQDN kd (kapi.Namespace service) (kapi.Name service) port) false
  = inl [skymsg.mkService
           (serviceFQDN kd (kapi.Namespace service) (kapi.Name service))
           (kapi.PortNumber port) 10 10 30].
Proof.
  intros Hwf Hd HD Hn Hns Hnstar Hnsstar Hip Hin Hnamed Hpname Hproto Hsame.
  set (n := kapi.Name service) in *. set (ns := kapi.Namespace service) in *.
  set (a := "_" +:+ ToLower (kapi.Protocol port)).
  set (b := "_" +:+ kapi.PortName port).
  assert (pathOfName (srvFQDN kd ns n port) = (servicePath kd ns n ++ [a]) ++ [b]) as Hpath.
  { change (srvFQDN kd ns n port) with (b +:+ "." +:+ a +:+ "." +:+ serviceFQDN kd ns n).
    destruct (pathOfName_label a (serviceFQDN kd ns n)) as [H1 Ht1];
      [done|by apply serviceFQDN_trimmed|].
    destruct (pathOfName_label b _ Hpname Ht1) as [H2 _].
    by rewrite H2, H1, serviceFQDN_path. }
  unfold newService. cbn [assertIsService]. rewrite Hip. cbn [negb].
  unfold newPortalService. fold n ns. set (sub := portalSubCache kd service).
  rewrite Records_unfold. cbv zeta. rewrite Hpath, isPodRecord_withCache.
  assert (isPodRecord kd ((servicePath kd ns n ++ [a]) ++ [b]) = false) as ->.
  { unfold servicePath. rewrite <- !app_assoc. by apply isPodRecord_other. }
  cbn [cache withCache]. unfold getValuesForPathWithWildcards.
  rewrite walk_literal; [| |done].
  2:{ intros [Hs|Hs]%elem_of_app; [by apply servicePath_literal in Hs|].
      by apply list_elem_of_singleton in Hs. }
  rewrite servicePath_app, getSubCache_installed.
  destruct (selectLast_single sub a b (getSkyMsg (kapi.ClusterIP service) 0).2
              (skymsg.mkService (serviceFQDN kd ns n) (kapi.PortNumber port) 10 10 30))
    as (node & -> & Hsel).
  - intros key. unfold sub, portalSubCache. cbn [getSkyMsg].
    change [a; b] with (srvPath port). case_decide as Hk.
    + subst key. rewrite (addSRV_named _ _ _ _ _ _ port) by done. by rewrite srv_host.
    + rewrite addSRV_other by by left. unfold srvPath. by rewrite getEntry_cons.
  - apply portal_entry_paths; [done|]. by intros other _ _.
  - rewrite walk_last by done. by rewrite Hsel.
Qed.

(** X14.  [updateService] with a portal service replaces the subtree of the
    service: below its path the cache holds what [newPortalService] builds
    from the new object alone, so that every entry at a path that is not the
    SRV path of a named port of the new object is gone, the SRV records of
    ports that only the old object had among them.  The old object is not
    read. *)
Theorem update_replaces_subtree kd oldObj service key q :
  IsServiceIPSet service = true →
  getEntry key (servicePath kd (kapi.Namespace service) (kapi.Name service) ++ q)
    (cache (updateService kd oldObj (ObjService service)))
  = getEntry key q (portalSubCache kd service) ∧
  (q ≠ [] →
   (∀ port, port ∈ kapi.Ports service → isNamed port = true → srvPath port ≠ q) →
   getEntry key (servicePath kd (kapi.Namespace service) (kapi.Name service) ++ q)
     (cache (updateService kd oldObj (ObjService service))) = None).
Proof.
  intros Hip.
  assert (getEntry key
            (servicePath kd (kapi.Namespace service) (kapi.Name service) ++ q)
            (cache (updateService kd oldObj (ObjService service)))
          = getEntry key q (portalSubCache kd service)) as Hsub.
  { unfold updateService, newService. cbn [assertIsService]. rewrite Hip. cbn [negb].
    unfold newPortalService. cbn [cache withCache].
    rewrite servicePath_app. apply getEntry_installed. }
  split; [done|]. intros Hq Hports. rewrite Hsub. by apply portal_entry_paths.
Qed.
End PortalQueries.

(** Witness of X12: the pod name of dns_test.go. *)
Lemma pod_name_round_trip_witness :
  podFQDN testKubeDNS "default" "1.2.3.4" = "1-2-3-4.default.pod.cluster.local." ∧
  Records (imp := refImports) testKubeDNS (podFQDN testKubeDNS "default" "1.2.3.4") true
  = inl [ARecord "1.2.3.4"].
Proof.
  split; [reflexivity|].
  apply (pod_name_round_trip (imp := refImports) testKubeDNS "default" "1.2.3.4" true).
  - reflexivity.
  - by vm_compute.
  - apply (bool_decide_unpack _). by vm_compute.
  - reflexivity.
  - by vm_compute.
  - reflexivity.
  - reflexivity.
Defined.

(** Witness of X13: the named port of dns_test.go. *)
Lemma portal_srv_query_witness :
  srvFQDN testKubeDNS "default" "testservice" (kapi.mkServicePort "http1" 80 "TCP")
  = "_http1._tcp.testservice.default.svc.cluster.local." ∧
  Records (imp := refImports)
    (newService (imp := refImports) testKubeDNS (ObjService namedService))
    (srvFQDN testKubeDNS "default" "testservice" (kapi.mkServicePort "http1" 80 "TCP"))
    false
  = inl [skymsg.mkService "testservice.default.svc.cluster.local." 80 10 10 30].
Proof.
  split; [reflexivity|].
  apply (portal_srv_query (imp := refImports) testKubeDNS namedService
           (kapi.mkServicePort "http1" 80 "TCP")).
  - reflexivity.
  - by vm_compute.
  - apply (bool_decide_unpack _). by vm_compute.
  - reflexivity.
  - reflexivity.
  - by vm_compute.
  - by vm_compute.
  - reflexivity.
  - left.
  - reflexivity.
  - reflexivity.
  - reflexivity.
  - intros other Hin _ _.
    apply elem_of_cons in Hin as [->|Hin]; [reflexivity|]. by apply elem_of_nil in Hin.
Defined.

(** Witness of X14: the service had the port [http] and is updated to one
    with the port [http1]. *)
Lemma update_replaces_subtree_witness :
  getEntry (getSkyMsg (imp := refImports) "1.2.3.4" 0).2 ["_tcp"; "_http"]
    (portalSubCache (imp := refImports) testKubeDNS twoPortsService)
  = Some (skymsg.mkService "testservice.default.svc.cluster.local." 81 10 10 30) ∧
  getEntry (getSkyMsg (imp := refImports) "1.2.3.4" 0).2
    (servicePath testKubeDNS "default" "testservice" ++ ["_tcp"; "_http"])
    (cache (updateService (imp := refImports)
              (newService (imp := refImports) testKubeDNS (ObjService twoPortsService))
              (ObjService twoPortsService) (ObjService namedService)))
  = None.
Proof.
  split; [by vm_compute|].
  destruct (update_replaces_subtree (imp := refImports)
              (newService (imp := refImports) testKubeDNS (ObjService twoPortsService))
              (ObjService twoPortsService) namedService
              (getSkyMsg (imp := refImports) "1.2.3.4" 0).2 ["_tcp"; "_http"] eq_refl)
    as [_ Hgone].
  apply Hgone; [done|].
  intros port Hin _.
  apply elem_of_cons in Hin as [->|Hin]; [by vm_compute|]. by apply elem_of_nil in Hin.
Defined.

(** ** Removal *)

Lemma getEntry_deletePath_inside root cache key q :
  root ≠ [] → root `prefix_of` (q ++ [key]) →
  getEntry key q (deletePath root cache) = None.
Proof.
  revert cache q. induction root as [|p rest IH]; intros cache q Hne Hin; [done|].
  destruct rest as [|p' rest].
  - simpl. destruct q as [|a q].
    + destruct Hin as [k Hk]. simplify_eq/=. rewrite getEntry_nil. simpl.
      apply lookup_delete_eq.
    + destruct Hin as [k Hk]. simplify_eq/=. rewrite getEntry_cons. simpl.
      by rewrite lookup_delete_eq.
  - change (deletePath (p :: p' :: rest) cache) with
      (match ChildNodes cache !! p with
       | Some child =>
           mkTreeCache (<[p := deletePath (p' :: rest) child]> (ChildNodes cache))
             (Entries cache)
       | None => cache end).
    destruct q as [|a q].
    { destruct Hin as [k Hk]. simplify_eq/=. }
    assert (a = p ∧ (p' :: rest) `prefix_of` (q ++ [key])) as [-> Htail].
    { destruct Hin as [k Hk]. simplify_eq/=. split; [done|]. by eexists. }
    destruct (ChildNodes cache !! p) as [child|] eqn:Hc.
    + rewrite getEntry_cons. simpl. rewrite lookup_insert_eq. by apply IH.
    + by rewrite getEntry_cons, Hc.
Qed.

Lemma getSubCache_deletePath root cache :
  root ≠ [] → getSubCache root (deletePath root cache) = None.
Proof.
  revert cache. induction root as [|p rest IH]; intros cache Hne; [done|].
  destruct rest as [|p' rest].
  - simpl. by rewrite lookup_delete_eq.
  - change (deletePath (p :: p' :: rest) cache) with
      (match ChildNodes cache !! p with
       | Some child =>
           mkTreeCache (<[p := deletePath (p' :: rest) child]> (ChildNodes cache))
             (Entries cache)
       | None => cache end).
    destruct (ChildNodes cache !! p) as [child|] eqn:Hc.
    + cbn [getSubCache ChildNodes]. rewrite lookup_insert_eq. by apply IH.
    + cbn [getSubCache]. by rewrite Hc.
Qed.

(** X15.  After [removeService], no entry is left at or below the path
    [D ++ [svc, ns, n]] of the service, nor under the key [n] of the node of
    its namespace. *)
Theorem removeService_clears_subtree s kd key q :
  servicePath kd (kapi.Namespace s) (kapi.Name s) `prefix_of` (q ++ [key]) →
  getEntry key q (cache (removeService kd (ObjService s))) = None.
Proof.
  intros Hin. simpl. apply getEntry_deletePath_inside; [|done].
  unfold servicePath. by destruct (domainPath kd).
Qed.

(** X16.  After [removeService] the service no longer resolves: the queries
    for its name and for [*.] before its name fail with the not-found error
    in wildcard mode, and the query for its name fails with it in exact
    mode, whatever the cache held. *)
Theorem removeService_not_found {imp : Imports} kd s :
  wellFormed kd →
  TrimRight (domain kd) "." ≠ "" →
  "*" ∉ domainPath kd →
  hasByte "." (kapi.Name s) = false → hasByte "." (kapi.Namespace s) = false →
  kapi.Name s ≠ "*" → kapi.Namespace s ≠ "*" →
  let fqdn := serviceFQDN kd (kapi.Namespace s) (kapi.Name s) in
  Records (removeService kd (ObjService s)) fqdn false = inr ErrKeyNotFound ∧
  Records (removeService kd (ObjService s)) ("*" +:+ "." +:+ fqdn) false
    = inr ErrKeyNotFound ∧
  (kapi.Name s ≠ "" →
   Records (removeService kd (ObjService s)) fqdn true = inr ErrKeyNotFound).
Proof.
  intros Hwf Hd HD Hn Hns Hnstar Hnsstar fqdn.
  set (n := kapi.Name s) in *. set (ns := kapi.Namespace s) in *.
  assert (pathOfName fqdn = servicePath kd ns n) as Hpath by by apply serviceFQDN_path.
  assert (servicePath kd ns n ≠ []) as Hne.
  { unfold servicePath. by destruct (domainPath kd). }
  assert (isPodRecord kd (servicePath kd ns n) = false) as Hpod.
  { unfold servicePath. by apply isPodRecord_other. }
  change (removeService kd (ObjService s))
    with (withCache kd (deletePath (servicePath kd ns n) (cache kd))).
  set (c := deletePath (servicePath kd ns n) (cache kd)).
  assert (getEntry n (domainPath kd ++ [serviceSubdomain; ns]) c = None) as Hentry.
  { apply getEntry_deletePath_inside; [done|]. by rewrite servicePath_app. }
  assert (getSubCache (servicePath kd ns n) c = None) as Hsub
    by by apply getSubCache_deletePath.
  split; [|split].
  - rewrite Records_unfold. cbv zeta.
    rewrite Hpath, isPodRecord_withCache, Hpod. cbn [cache withCache].
    unfold getValuesForPathWithWildcards.
    rewrite servicePath_app, walk_literal; [| |done].
    2:{ intros [?|Hin]%elem_of_app; [done|].
        repeat (apply elem_of_cons in Hin as [?|Hin]; [done|]).
        by apply elem_of_nil in Hin. }
    rewrite servicePath_app, getSubCache_snoc in Hsub.
    unfold getEntry in Hentry.
    destruct (getSubCache (domainPath kd ++ [serviceSubdomain; ns]) c) as [node|]; [|done].
    rewrite walk_last by done. unfold selectLast. by rewrite Hentry, Hsub.
  - destruct (pathOfName_label "*" fqdn) as [Hstar _];
      [done|by apply serviceFQDN_trimmed|].
    rewrite Records_unfold. cbv zeta.
    rewrite Hstar, Hpath, isPodRecord_withCache.
    assert (isPodRecord kd (servicePath kd ns n ++ ["*"]) = false) as ->.
    { unfold servicePath. rewrite <- app_assoc. by apply isPodRecord_other. }
    cbn [cache withCache]. unfold getValuesForPathWithWildcards.
    rewrite walk_literal; [|by apply servicePath_literal|done].
    by rewrite Hsub.
  - intros Hnonempty. rewrite Records_unfold. cbv zeta.
    rewrite Hpath, isPodRecord_withCache, Hpod. cbn [cache withCache].
    rewrite servicePath_app.
    rewrite length_app. cbn [length].
    replace (length (domainPath kd ++ [serviceSubdomain; ns]) + 1 - 1)%nat
      with (length (domainPath kd ++ [serviceSubdomain; ns]) + 0)%nat by lia.
    rewrite lookup_app_r, take_app_add by lia.
    replace (length (domainPath kd ++ [serviceSubdomain; ns]) + 0
             - length (domainPath kd ++ [serviceSubdomain; ns]))%nat with 0%nat by lia.
    cbn [lookup list_lookup take]. rewrite app_nil_r.
    destruct n; [done|]. cbn [string_empty]. by rewrite Hentry.
Qed.

(** ** The label of a record, again *)

Lemma Sprintf_x_string_length s :
  String.length (Sprintf_x_string s) = (2 * String.length s)%nat.
Proof. induction s as [|a s IH]; [done|]. simpl. rewrite IH. lia. Qed.

Lemma hexLoop_length digits n acc :
  (String.length (hexLoop digits n acc) ≤ digits + String.length acc)%nat ∧
  (0 < digits → String.length acc < String.length (hexLoop digits n acc))%nat.
Proof.
  revert n acc. induction digits as [|d IH]; intros n acc; simpl; [lia|].
  destruct (n / 16 =? 0)%N; simpl; [lia|].
  destruct (IH (n / 16)%N (String (hexDigit (n mod 16)) acc)) as [Hle Hlt].
  simpl in *. split; [lia|]. intros _.
  destruct d; simpl in *; lia.
Qed.

(** X17.  [getSkyMsg] returns the record [{ip, port, 10, 10, 30}] and a
    label that consists of decimal digits only, of even length between 2
    and 16: two digits for each of the one to eight hex digits of the
    hash. *)
Theorem getSkyMsg_label_shape {imp : Imports} ip port :
  (getSkyMsg ip port).1 = skymsg.mkService ip port 10 10 30 ∧
  (∀ c, hasByte c (getSkyMsg ip port).2 = true → isDecimal c = true) ∧
  Nat.Even (String.length (getSkyMsg ip port).2) ∧
  (2 ≤ String.length (getSkyMsg ip port).2 ≤ 16)%nat.
Proof.
  split; [done|]. split; [intros c; apply label_decimal|].
  cbn [getSkyMsg snd]. rewrite Sprintf_x_string_length.
  destruct (hexLoop_length 8 (fnv32a (Sprintf_v (skymsg.mkService ip port 10 10 30))) "")
    as [Hle Hlt].
  fold (Sprintf_x_uint32 (fnv32a (Sprintf_v (skymsg.mkService ip port 10 10 30))))
    in Hle, Hlt.
  change (String.length "") with 0%nat in Hle, Hlt.
  split; [by eexists|]. lia.
Qed.

(** Witness of X15: the SRV record of the named port of dns_test.go, before
    and after the removal. *)
Lemma removeService_clears_subtree_witness :
  getEntry (getSkyMsg (imp := refImports) "1.2.3.4" 0).2
    (servicePath testKubeDNS "default" "testservice" ++ ["_tcp"])
    (cache (newService (imp := refImports) testKubeDNS (ObjService namedService)))
  = None ∧
  getEntry (getSkyMsg (imp := refImports) "1.2.3.4" 0).2
    (servicePath testKubeDNS "default" "testservice" ++ ["_tcp"; "_http1"])
    (cache (newService (imp := refImports) testKubeDNS (ObjService namedService)))
  = Some (skymsg.mkService "testservice.default.svc.cluster.local." 80 10 10 30) ∧
  getEntry (getSkyMsg (imp := refImports) "1.2.3.4" 0).2
    (servicePath testKubeDNS "default" "testservice" ++ ["_tcp"; "_http1"])
    (cache (removeService
              (newService (imp := refImports) testKubeDNS (ObjService namedService))
              (ObjService namedService)))
  = None.
Proof.
  split; [by vm_compute|]. split; [by vm_compute|].
  apply (removeService_clears_subtree namedService
           (newService (imp := refImports) testKubeDNS (ObjService namedService))).
  by eexists.
Defined.

(** Witness of X16: the portal service of dns_test.go, added and removed. *)
Lemma removeService_not_found_witness :
  Records (imp := refImports)
    (newService (imp := refImports) testKubeDNS (ObjService testService))
    "testservice.default.svc.cluster.local." false = inl [ARecord "1.2.3.4"] ∧
  Records (imp := refImports)
    (removeService
       (newService (imp := refImports) testKubeDNS (ObjService testService))
       (ObjService testService))
    "testservice.default.svc.cluster.local." false = inr ErrKeyNotFound ∧
  Records (imp := refImports)
    (removeService
       (newService (imp := refImports) testKubeDNS (ObjService testService))
       (ObjService testService))
    "*.testservice.default.svc.cluster.local." false = inr ErrKeyNotFound ∧
  Records (imp := refImports)
    (removeService
       (newService (imp := refImports) testKubeDNS (ObjService testService))
       (ObjService testService))
    "testservice.default.svc.cluster.local." true = inr ErrKeyNotFound.
Proof.
  split; [by vm_compute|].
  destruct (removeService_not_found (imp := refImports)
              (newService (imp := refImports) testKubeDNS (ObjService testService))
              testService) as (Hname & Hstar & Hexact).
  - reflexivity.
  - by vm_compute.
  - apply (bool_decide_unpack _). by vm_compute.
  - reflexivity.
  - reflexivity.
  - by vm_compute.
  - by vm_compute.
  - split; [exact Hname|]. split; [exact Hstar|]. apply Hexact. by vm_compute.
Defined.

(** ** The writes of a headless service *)

Lemma writes_sound ws cache key q val :
  getEntry key q (foldl applyWrite cache ws) = Some val →
  getEntry key q cache = Some val ∨ (key, q, val) ∈ ws.
Proof.
  induction ws as [|w ws IH] using rev_ind; [by left|].
  rewrite foldl_app. cbn [foldl]. destruct w as [[k p] v]. unfold applyWrite at 1.
  cbn [fst snd]. destruct (decide ((p, k) = (q, key))) as [Heq|Hne].
  - injection Heq as -> ->. rewrite getEntry_setEntry_eq. intros [= ->].
    right. apply elem_of_app. right. by apply list_elem_of_singleton.
  - rewrite getEntry_setEntry_ne by done. intros [?|?]%IH; [by left|].
    right. apply elem_of_app. by left.
Qed.

Lemma writes_complete ws cache key q val :
  (key, q, val) ∈ ws →
  (∀ other, (key, q, other) ∈ ws → other = val) →
  getEntry key q (foldl applyWrite cache ws) = Some val.
Proof.
  induction ws as [|w ws IH] using rev_ind; [by intros ?%elem_of_nil|].
  intros Hin Hsame. rewrite foldl_app. cbn [foldl].
  destruct w as [[k p] v]. unfold applyWrite at 1. cbn [fst snd].
  destruct (decide ((p, k) = (q, key))) as [Heq|Hne].
  - injection Heq as -> ->. rewrite getEntry_setEntry_eq. f_equal.
    apply Hsame, elem_of_app. right. by apply list_elem_of_singleton.
  - rewrite getEntry_setEntry_ne by done. apply IH.
    + apply elem_of_app in Hin as [?|Hin]; [done|].
      apply list_elem_of_singleton in Hin. congruence.
    + intros other Hother. apply Hsame, elem_of_app. by left.
Qed.

Section HeadlessWrites.
Context {imp : Imports}.

Lemma addSRV_writes kd svc label labels ports sub :
  foldl (addSRVRecord kd svc label labels) sub ports =
  foldl applyWrite sub
    ((λ port, (label, srvPath port,
               generateSRVRecordValue kd svc (kapi.PortNumber port) labels))
       <$> filter (λ port, isNamed port = true) ports).
Proof.
  revert sub. induction ports as [|port ports IH]; intros sub; [done|].
  cbn [foldl]. rewrite IH, addSRVRecord_unfold, filter_cons.
  destruct (decide (isNamed port = true)) as [->|Hn]; [done|].
  by apply not_true_is_false in Hn as ->.
Qed.

Lemma addAddress_writes kd svc podHostnames ports sub address :
  addAddress kd svc podHostnames ports sub address =
  foldl applyWrite sub (addressWrites kd svc podHostnames ports address).
Proof. unfold addAddress, addressWrites. cbv zeta. by rewrite addSRV_writes. Qed.

Lemma foldl_bind {A B C} (f : A → C → A) (g : B → list C) (step : A → B → A) l a :
  (∀ a b, step a b = foldl f a (g b)) →
  foldl step a l = foldl f a (l ≫= g).
Proof.
  intros Hstep. revert a. induction l as [|b l IH]; intros a; [done|].
  cbn [foldl]. rewrite bind_cons, foldl_app, IH. by rewrite Hstep.
Qed.

Lemma headlessSubCache_writes kd e svc podHostnames :
  headlessSubCache kd e svc podHostnames =
  foldl applyWrite NewTreeCache (headlessWrites kd e svc podHostnames).
Proof.
  unfold headlessSubCache, headlessWrites. apply foldl_bind. intros sub subset.
  apply foldl_bind. intros sub' address. apply addAddress_writes.
Qed.

Lemma srv_host_label kd svc port label :
  generateSRVRecordValue kd svc port [label] =
    skymsg.mkService (endpointFQDN kd (kapi.Namespace svc) (kapi.Name svc) label)
      port 10 10 30.
Proof.
  unfold generateSRVRecordValue, endpointFQDN, serviceFQDN. cbn.
  done.
Qed.

Lemma headlessWrites_elem kd e svc podHostnames key q val :
  (key, q, val) ∈ headlessWrites kd e svc podHostnames ↔
  ∃ subset address,
    subset ∈ kapi.Subsets e ∧ address ∈ kapi.Addresses subset ∧
    key = endpointNameOf podHostnames address ∧
    ((q = [] ∧ val = skymsg.mkService (kapi.IP address) 0 10 10 30) ∨
     (∃ port, port ∈ kapi.SubsetPorts subset ∧ isNamed port = true ∧
              q = srvPath port ∧
              val = skymsg.mkService
                      (endpointFQDN kd (kapi.Namespace svc) (kapi.Name svc) key)
                      (kapi.PortNumber port) 10 10 30)).
Proof.
  unfold headlessWrites. rewrite list_elem_of_bind. split.
  - intros (subset & (address & Hw & Ha)%list_elem_of_bind & Hs).
    exists subset, address. split; [done|]. split; [done|].
    unfold addressWrites in Hw. cbv zeta in Hw.
    apply elem_of_cons in Hw as [[= -> -> ->]|Hw].
    { split; [done|]. by left. }
    apply list_elem_of_fmap in Hw as (port & [= -> -> ->] & [Hn Hp]%list_elem_of_filter).
    split; [done|]. right. exists port. by rewrite srv_host_label.
  - intros (subset & address & Hs & Ha & -> & Hw). exists subset. split; [|done].
    apply list_elem_of_bind. exists address. split; [|done].
    unfold addressWrites. cbv zeta. destruct Hw as [[-> ->]|(port & Hp & Hn & -> & ->)].
    { apply elem_of_cons. by left. }
    apply elem_of_cons. right. apply list_elem_of_fmap. exists port.
    split; [by rewrite srv_host_label|]. by apply list_elem_of_filter.
Qed.

(** The cache after the endpoints of a headless service were handled. *)
Lemma handleEndpointAdd_cache kd e svc podHostnames :
  servicesStore kd !! MetaNamespaceKey (kapi.ENamespace e) (kapi.EName e)
    = Some (ObjService svc) →
  IsServiceIPSet svc = false →
  getPodHostnamesFromAnnotation (kapi.Annotations e) = inl podHostnames →
  handleEndpointAdd kd (ObjEndpoints e) =
  withCache kd
    (setSubCache (kapi.Name svc) (headlessSubCache kd e svc podHostnames)
       (domainPath kd ++ [serviceSubdomain; kapi.Namespace svc]) (cache kd)).
Proof.
  intros Hsvc Hip Hann.
  unfold handleEndpointAdd, addDNSUsingEndpoints, getServiceFromEndpoints.
  rewrite Hsvc. cbn [assertIsService]. rewrite Hip.
  unfold generateRecordsForHeadlessService. by rewrite Hann.
Qed.

(** X18.  Every entry that the subtree of a headless service holds after
    its endpoints were handled comes from an address of the endpoints
    object, and is keyed by the name of that address: it is either the A
    record [{host: IP, port: 0}] of the address at the root of the subtree,
    or, at the SRV path of a port of the address's subset that has a name
    and a protocol, the SRV record with host [<key>.n.ns.svc.<domain>] and
    the number of that port.  Ports without a name or a protocol, and
    whatever the subtree held before, leave nothing. *)
Theorem headless_entries_sound kd e svc podHostnames key q val :
  servicesStore kd !! MetaNamespaceKey (kapi.ENamespace e) (kapi.EName e)
    = Some (ObjService svc) →
  IsServiceIPSet svc = false →
  getPodHostnamesFromAnnotation (kapi.Annotations e) = inl podHostnames →
  getEntry key (servicePath kd (kapi.Namespace svc) (kapi.Name svc) ++ q)
    (cache (handleEndpointAdd kd (ObjEndpoints e))) = Some val →
  ∃ subset address,
    subset ∈ kapi.Subsets e ∧ address ∈ kapi.Addresses subset ∧
    key = endpointNameOf podHostnames address ∧
    ((q = [] ∧ val = skymsg.mkService (kapi.IP address) 0 10 10 30) ∨
     (∃ port, port ∈ kapi.SubsetPorts subset ∧ isNamed port = true ∧
              q = srvPath port ∧
              val = skymsg.mkService
                      (endpointFQDN kd (kapi.Namespace svc) (kapi.Name svc) key)
                      (kapi.PortNumber port) 10 10 30)).
Proof.
  intros Hsvc Hip Hann.
  rewrite (handleEndpointAdd_cache kd e svc podHostnames) by done.
  cbn [cache withCache]. rewrite servicePath_app, getEntry_installed, headlessSubCache_writes.
  intros [Hnew|Hw]%writes_sound.
  - by rewrite getEntry_NewTreeCache in Hnew.
  - by apply headlessWrites_elem.
Qed.

(** X19.  After the endpoints of a headless service were handled, each
    address has, for each port of its subset that has a name and a protocol,
    an SRV record at the SRV path of the port under the name of the address,
    with host [<name>.n.ns.svc.<domain>] and the number of the port,
    provided the ports at that path of addresses of that name carry the same
    number. *)
Theorem headless_srv_entry kd e svc podHostnames subset address port :
  servicesStore kd !! MetaNamespaceKey (kapi.ENamespace e) (kapi.EName e)
    = Some (ObjService svc) →
  IsServiceIPSet svc = false →
  getPodHostnamesFromAnnotation (kapi.Annotations e) = inl podHostnames →
  subset ∈ kapi.Subsets e → address ∈ kapi.Addresses subset →
  port ∈ kapi.SubsetPorts subset → isNamed port = true →
  (∀ subset' address' port',
     subset' ∈ kapi.Subsets e → address' ∈ kapi.Addresses subset' →
     port' ∈ kapi.SubsetPorts subset' → isNamed port' = true →
     endpointNameOf podHostnames address' = endpointNameOf podHostnames address →
     srvPath port' = srvPath port →
     kapi.PortNumber port' = kapi.PortNumber port) →
  getEntry (endpointNameOf podHostnames address)
    (servicePath kd (kapi.Namespace svc) (kapi.Name svc) ++ srvPath port)
    (cache (handleEndpointAdd kd (ObjEndpoints e)))
  = Some (skymsg.mkService
            (endpointFQDN kd (kapi.Namespace svc) (kapi.Name svc)
               (endpointNameOf podHostnames address))
            (kapi.PortNumber port) 10 10 30).
Proof.
  intros Hsvc Hip Hann Hs Ha Hp Hn Hsame.
  rewrite (handleEndpointAdd_cache kd e svc podHostnames) by done.
  cbn [cache withCache]. rewrite servicePath_app, getEntry_installed, headlessSubCache_writes.
  apply writes_complete.
  - apply headlessWrites_elem. exists subset, address. do 3 (split; [done|]).
    right. by exists port.
  - intros other (subset' & address' & Hs' & Ha' & Hname & Hw)%headlessWrites_elem.
    destruct Hw as [[? _]|(port' & Hp' & Hn' & Hpath & ->)]; [done|].
    by rewrite (Hsame subset' address' port').
Qed.

(** X20.  The host of the SRV record of an address of a headless service
    resolves to the address: after the endpoints were handled, the query for
    [<name>.n.ns.svc.<domain>], with [name] the name under which the address
    is stored (its hostname, the hostname of the annotation, or the label of
    [getSkyMsg]), returns in both modes the one A record
    [{host: IP, port: 0}] of the address, provided [name] is a label without
    a dot, other than [*] and not empty, and the addresses of that name
    carry the same IP. *)
Theorem headless_endpoint_name_resolves kd e svc podHostnames address exact :
  wellFormed kd →
  TrimRight (domain kd) "." ≠ "" →
  "*" ∉ domainPath kd →
  hasByte "." (kapi.Name svc) = false → hasByte "." (kapi.Namespace svc) = false →
  kapi.Name svc ≠ "*" → kapi.Namespace svc ≠ "*" →
  servicesStore kd !! MetaNamespaceKey (kapi.ENamespace e) (kapi.EName e)
    = Some (ObjService svc) →
  IsServiceIPSet svc = false →
  getPodHostnamesFromAnnotation (kapi.Annotations e) = inl podHostnames →
  address ∈ allAddresses e →
  hasByte "." (endpointNameOf podHostnames address) = false →
  endpointNameOf podHostnames address ≠ "*" →
  endpointNameOf podHostnames address ≠ "" →
  (∀ other, other ∈ allAddresses e →
            endpointNameOf podHostnames other = endpointNameOf podHostnames address →
            kapi.IP other = kapi.IP address) →
  Records (handleEndpointAdd kd (ObjEndpoints e))
    (endpointFQDN kd (kapi.Namespace svc) (kapi.Name svc)
       (endpointNameOf podHostnames address)) exact
  = inl [skymsg.mkService (kapi.IP address) 0 10 10 30].
Proof.
  intros Hwf Hd HD Hn Hns Hnstar Hnsstar Hsvc Hip Hann Ha Hdot Hstar Hempty Hsame.
  set (n := kapi.Name svc) in *. set (ns := kapi.Namespace svc) in *.
  set (name := endpointNameOf podHostnames address) in *.
  set (sub := headlessSubCache kd e svc podHostnames).
  assert (pathOfName (endpointFQDN kd ns n name) = servicePath kd ns n ++ [name]) as Hpath.
  { destruct (pathOfName_label name (serviceFQDN kd ns n)) as [H1 _];
      [done|by apply serviceFQDN_trimmed|].
    unfold endpointFQDN. by rewrite H1, serviceFQDN_path. }
  assert (Entries sub !! name = Some (skymsg.mkService (kapi.IP address) 0 10 10 30))
    as Hentry.
  { unfold sub, name. rewrite headless_Entries.
    destruct (foldl_insert_lookup_elem (endpointNameOf podHostnames)
                (λ a, (getSkyMsg (kapi.IP a) 0).1) (allAddresses e) address Ha)
      as (b & Hb & Hkey & Hlookup).
    rewrite Hlookup. cbn [getSkyMsg fst]. by rewrite (Hsame b). }
  rewrite (handleEndpointAdd_cache kd e svc podHostnames) by done.
  fold n ns sub.
  rewrite Records_unfold. cbv zeta. rewrite Hpath, isPodRecord_withCache.
  assert (isPodRecord kd (servicePath kd ns n ++ [name]) = false) as ->.
  { unfold servicePath. rewrite <- app_assoc. by apply isPodRecord_other. }
  cbn [cache withCache]. destruct exact.
  - rewrite length_app. cbn [length].
    replace (length (servicePath kd ns n) + 1 - 1)%nat
      with (length (servicePath kd ns n) + 0)%nat by lia.
    rewrite lookup_app_r, take_app_add by lia.
    replace (length (servicePath kd ns n) + 0 - length (servicePath kd ns n))%nat
      with 0%nat by lia.
    cbn [lookup list_lookup take]. rewrite app_nil_r.
    destruct name; [done|]. cbn [string_empty].
    rewrite <- (app_nil_r (servicePath kd ns n)), servicePath_app, getEntry_installed.
    by rewrite getEntry_nil, Hentry.
  - unfold getValuesForPathWithWildcards.
    rewrite walk_literal; [|by apply servicePath_literal|done].
    rewrite <- (app_nil_r (servicePath kd ns n)), servicePath_app, getSubCache_installed.
    cbn [getSubCache]. rewrite walk_last by done. unfold selectLast. by rewrite Hentry.
Qed.
End HeadlessWrites.

(** Witness of X18: the SRV record of the address with the hostname [web-0]. *)
Lemma headless_entries_sound_witness :
  ∃ subset address,
    subset ∈ kapi.Subsets hostnameEndpoints ∧ address ∈ kapi.Addresses subset ∧
    "web-0" = endpointNameOf (imp := refImports) ∅ address ∧
    ((["_tcp"; "_http"] = [] ∧
      skymsg.mkService "web-0.testservice.default.svc.cluster.local." 80 10 10 30
      = skymsg.mkService (kapi.IP address) 0 10 10 30) ∨
     (∃ port, port ∈ kapi.SubsetPorts subset ∧ isNamed port = true ∧
              ["_tcp"; "_http"] = srvPath port ∧
              skymsg.mkService "web-0.testservice.default.svc.cluster.local." 80 10 10 30
              = skymsg.mkService
                  (endpointFQDN testKubeDNS (kapi.Namespace headlessService)
                     (kapi.Name headlessService) "web-0")
                  (kapi.PortNumber port) 10 10 30)).
Proof.
  apply (headless_entries_sound (imp := refImports) (withStores testKubeDNS None)
           hostnameEndpoints headlessService ∅ "web-0" ["_tcp"; "_http"]
           (skymsg.mkService "web-0.testservice.default.svc.cluster.local." 80 10 10 30)).
  - by vm_compute.
  - reflexivity.
  - reflexivity.
  - by vm_compute.
Defined.

(** Witness of X19: the address with the hostname [web-0] and its port [http]. *)
Lemma headless_srv_entry_witness :
  getEntry "web-0"
    (servicePath testKubeDNS "default" "testservice" ++ ["_tcp"; "_http"])
    (cache (handleEndpointAdd (imp := refImports) (withStores testKubeDNS None)
              (ObjEndpoints hostnameEndpoints)))
  = Some (skymsg.mkService "web-0.testservice.default.svc.cluster.local." 80 10 10 30).
Proof.
  apply (headless_srv_entry (imp := refImports) (withStores testKubeDNS None)
           hostnameEndpoints headlessService ∅
           (kapi.mkEndpointSubset [kapi.mkEndpointAddress "10.0.0.1" "web-0"]
              [kapi.mkServicePort "http" 80 "TCP"])
           (kapi.mkEndpointAddress "10.0.0.1" "web-0")
           (kapi.mkServicePort "http" 80 "TCP")).
  - by vm_compute.
  - reflexivity.
  - reflexivity.
  - left.
  - left.
  - left.
  - reflexivity.
  - intros subset' address' port' Hs Ha Hp _ _ _.
    apply elem_of_cons in Hs as [->|Hs]; [|by apply elem_of_nil in Hs].
    apply elem_of_cons in Hp as [->|Hp]; [reflexivity|by apply elem_of_nil in Hp].
Defined.

(** Witness of X20: the address with the hostname [web-0]. *)
Lemma headless_endpoint_name_resolves_witness :
  Records (imp := refImports)
    (handleEndpointAdd (imp := refImports) (withStores testKubeDNS None)
       (ObjEndpoints hostnameEndpoints))
    "web-0.testservice.default.svc.cluster.local." true
  = inl [ARecord "10.0.0.1"].
Proof.
  apply (headless_endpoint_name_resolves (imp := refImports) (withStores testKubeDNS None)
           hostnameEndpoints headlessService ∅
           (kapi.mkEndpointAddress "10.0.0.1" "web-0") true).
  - reflexivity.
  - by vm_compute.
  - apply (bool_decide_unpack _). by vm_compute.
  - reflexivity.
  - reflexivity.
  - by vm_compute.
  - by vm_compute.
  - by vm_compute.
  - reflexivity.
  - reflexivity.
  - left.
  - reflexivity.
  - by vm_compute.
  - by vm_compute.
  - intros other Hin _.
    apply elem_of_cons in Hin as [->|Hin]; [reflexivity|by apply elem_of_nil in Hin].
Defined.

(** ** The scenarios of dns_test.go

    The model, with the TreeCache of the specification, gives what the
    tests of the package expect of the code.  The records of a headless
    service come in the order of the traversal. *)

Section Scenarios.
Let R := Records (imp := refImports).
Let add := newService (imp := refImports).
Let endpointsAdd := handleEndpointAdd (imp := refImports).

Example TestPodDns :
  R testKubeDNS "1-2-3-4.default.pod.cluster.local." false = inl [ARecord "1.2.3.4"].
Proof. by vm_compute. Qed.

Example TestUnnamedSinglePortService :
  let kd := add testKubeDNS (ObjService testService) in
  (λ q, R kd q false) <$> equivalentQueries kd "default" "testservice"
    = replicate 5 (inl [ARecord "1.2.3.4"]) ∧
  (λ q, R (removeService kd (ObjService testService)) q false)
    <$> equivalentQueries kd "default" "testservice"
    = replicate 5 (inr ErrKeyNotFound).
Proof. by vm_compute. Qed.

Example TestNamedSinglePortService :
  let srv := skymsg.mkService "testservice.default.svc.cluster.local." 80 10 10 30 in
  let kd1 := add testKubeDNS (ObjService namedService) in
  let renamed :=
    kapi.mkService "testservice" "default" "1.2.3.4" [kapi.mkServicePort "http2" 80 "TCP"] in
  let kd2 := updateService (imp := refImports) kd1 (ObjService namedService)
               (ObjService renamed) in
  R kd1 "_http1._tcp.testservice.default.svc.cluster.local." false = inl [srv] ∧
  R kd2 "_http2._tcp.testservice.default.svc.cluster.local." false = inl [srv] ∧
  R kd2 "_http1._tcp.testservice.default.svc.cluster.local." false = inr ErrKeyNotFound ∧
  R kd2 "testservice.default.svc.cluster.local." false = inl [ARecord "1.2.3.4"] ∧
  R (removeService kd2 (ObjService renamed))
    "_http2._tcp.testservice.default.svc.cluster.local." false = inr ErrKeyNotFound.
Proof. by vm_compute. Qed.

Example TestHeadlessService :
  let kd := add (withStores testKubeDNS (Some testEndpoints)) (ObjService headlessService) in
  R kd "testservice.default.svc.cluster.local." false
    = inl [ARecord "10.0.0.4"; ARecord "10.0.0.3"; ARecord "10.0.0.1"; ARecord "10.0.0.2"] ∧
  R (removeService kd (ObjService headlessService))
    "testservice.default.svc.cluster.local." false = inr ErrKeyNotFound.
Proof. by vm_compute. Qed.

Example TestHeadlessServiceWithNamedPorts :
  let kd := add (withStores testKubeDNS (Some namedPortsEndpoints))
              (ObjService headlessService) in
  count (R kd "testservice.default.svc.cluster.local." false) = 4%nat ∧
  ports (R kd "_http1._tcp.testservice.default.svc.cluster.local." false) = [80%Z; 80%Z] ∧
  ports (R kd "_http2._tcp.testservice.default.svc.cluster.local." false) = [81%Z; 81%Z] ∧
  ports (R kd "_https._tcp.testservice.default.svc.cluster.local." false) = [443%Z; 443%Z] ∧
  R kd "3234633364383235.testservice.default.svc.cluster.local." false = inl [ARecord "10.0.0.1"].
Proof. by vm_compute. Qed.

Example TestHeadlessServiceWithDelayedEndpointsAddition :
  let kd1 := add (withStores testKubeDNS None) (ObjService headlessService) in
  let kd2 := endpointsAdd kd1 (ObjEndpoints testEndpoints) in
  let kd3 := endpointsAdd kd2 (ObjEndpoints noEndpoints) in
  R kd1 "testservice.default.svc.cluster.local." false = inr ErrKeyNotFound ∧
  count (R kd2 "testservice.default.svc.cluster.local." false) = 4%nat ∧
  R kd3 "testservice.default.svc.cluster.local." false = inr ErrKeyNotFound.
Proof. by vm_compute. Qed.
End Scenarios.
